(** * Pupil-level topic scores and school/group aggregation

    A verification development for
    [create_and_process_data/functions.py]: the helpers [sum_score] and
    [reverse_score], the score calculator [calculate_scores] and the
    group aggregator [results_by_school_and_group].

    Modelling choices.
    - A pandas cell of a numeric column is a [cell]: either [NaN] (the
      missing value) or [Num q] with [q] an exact rational.  Arithmetic
      on cells follows IEEE/pandas propagation of NaN; rounding of
      float64 is outside the model.
    - A [Series n] is a column of [n] cells; a [DataFrame n] maps column
      names to columns of the same height [n].  Looking up a column that
      does not exist is Python's [KeyError], here [None].
    - [calculate_scores] is a sequence of column assignments and column
      drops, run in the order of the source.
    - For the aggregator a pupil row is a record of its five label
      columns and of the remaining columns, which only the caller's
      aggregation function reads. *)

From stdpp Require Import base numbers strings list vector gmap option sorting.
From Stdlib Require Import QArith Qcanon OrderedTypeEx Lqa.

Local Open Scope Qc_scope.

(** ** Cells *)

Inductive cell : Type :=
  | NaN
  | Num (q : Qc).

Global Instance cell_eq_dec : EqDecision cell.
Proof. solve_decision. Defined.

Definition isnull (x : cell) : bool :=
  match x with NaN => true | Num _ => false end.

(** A Python [int] used as an operand of a column operation. *)
Definition of_int (z : Z) : cell := Num (Qc_of_Z z).

(** Binary arithmetic: the result is NaN as soon as one operand is. *)
Definition lift2 (f : Qc → Qc → Qc) (x y : cell) : cell :=
  match x, y with
  | Num a, Num b => Num (f a b)
  | _, _ => NaN
  end.

Definition cadd : cell → cell → cell := lift2 Qcplus.
Definition csub : cell → cell → cell := lift2 Qcminus.
Definition cmul : cell → cell → cell := lift2 Qcmult.
Definition cdiv : cell → cell → cell := lift2 Qcdiv.

(** [x == k]: a comparison with NaN is [False]. *)
Definition ceq (x : cell) (k : Z) : bool :=
  match x with
  | NaN => false
  | Num q => bool_decide (q = Qc_of_Z k)
  end.

(** [x in ks], as [isin] computes it cell by cell. *)
Definition cell_isin (ks : list Z) (x : cell) : bool :=
  existsb (ceq x) ks.

(** Lookup of a cell in a Python [dict] with integer keys, as
    [Series.map] does it: NaN stays NaN, and a value that is not a key
    becomes NaN. *)
Fixpoint dict_get (d : list (Z * cell)) (x : cell) : cell :=
  match d with
  | [] => NaN
  | (k, v) :: d' => if ceq x k then v else dict_get d' x
  end.

(** [Series.replace(old, new)] on one cell. *)
Definition cell_replace (old : Z) (new : cell) (x : cell) : cell :=
  if ceq x old then new else x.

(** ** Series and data frames *)

Abbreviation Series n := (vec cell n).
Abbreviation DataFrame n := (gmap string (vec cell n)).

Section frames.
Context {n : nat}.

(** [data[c]] *)
Definition col (data : DataFrame n) (c : string) : option (Series n) :=
  data !! c.

(** [data[[c1, ..., ck]]]: the selected columns, in the order asked. *)
Definition cols (data : DataFrame n) (cs : list string)
  : option (list (Series n)) :=
  mapM (col data) cs.

Definition series_add (a b : Series n) : Series n := vzip_with cadd a b.
Definition series_mul (a b : Series n) : Series n := vzip_with cmul a b.
Definition series_sub_int (a : Series n) (k : Z) : Series n :=
  vmap (λ x, csub x (of_int k)) a.
Definition series_div_int (a : Series n) (k : Z) : Series n :=
  vmap (λ x, cdiv x (of_int k)) a.
Definition series_eq_int (a : Series n) (k : Z) : vec bool n :=
  vmap (λ x, ceq x k) a.
Definition series_map (d : list (Z * cell)) (a : Series n) : Series n :=
  vmap (dict_get d) a.
Definition series_replace (old : Z) (new : cell) (a : Series n) : Series n :=
  vmap (cell_replace old new) a.

(** [np.where(cond, a, b)] *)
Definition np_where (cond : vec bool n) (a b : Series n) : Series n :=
  vzip_with (λ (c : bool) (p : cell * cell), if c then p.1 else p.2)
            cond (vzip_with pair a b).

(** [df - k] on a frame of selected columns. *)
Definition frame_sub_int (df : list (Series n)) (k : Z) : list (Series n) :=
  (λ a, series_sub_int a k) <$> df.

(** [df.isin(ks).any(axis=1)] *)
Definition isin_any (ks : list Z) (df : list (Series n)) : vec bool n :=
  foldl (vzip_with orb) (vreplicate n false) (vmap (cell_isin ks) <$> df).

(** [df.isnull().all(axis=1)] *)
Definition isnull_all (df : list (Series n)) : vec bool n :=
  foldl (vzip_with andb) (vreplicate n true) (vmap isnull <$> df).

(** [data.loc[mask, c] = np.nan], on the column [c]. *)
Definition loc_set_nan (mask : vec bool n) (a : Series n) : Series n :=
  vzip_with (λ (m : bool) (x : cell), if m then NaN else x) mask a.

(** *** The two helpers of the source *)

(** [df.sum(axis=1, skipna=False)]: row by row, the columns are added
    up from 0 and no NaN is skipped. *)
Definition sum_score (df : list (Series n)) : Series n :=
  foldl (vzip_with cadd) (vreplicate n (of_int 0)) df.

(** [[max + min - x for x in scores]] *)
Definition reverse_score (scores : Series n) (min max : Z) : Series n :=
  vmap (λ x, csub (of_int (max + min)) x) scores.

(** ** Statements of [calculate_scores] *)

Inductive stmt : Type :=
  | Assign (c : string) (e : DataFrame n → option (Series n))
  | DropCols (cs : list string).

(** [data[c] = e(data)] and [data = data.drop(cs, axis=1)]; dropping a
    column that is not there is a [KeyError]. *)
Definition exec1 (s : stmt) (data : DataFrame n) : option (DataFrame n) :=
  match s with
  | Assign c e => v ← e data; Some (<[c := v]> data)
  | DropCols cs => _ ← cols data cs; Some (foldr delete data cs)
  end.

Fixpoint exec (prog : list stmt) (data : DataFrame n)
  : option (DataFrame n) :=
  match prog with
  | [] => Some data
  | s :: prog' => data' ← exec1 s data; exec prog' data'
  end.

(** The columns a statement writes or removes. *)
Definition touched1 (s : stmt) : list string :=
  match s with
  | Assign c _ => [c]
  | DropCols cs => cs
  end.

Definition touched (prog : list stmt) : list string :=
  prog ≫= touched1.

Definition touches (prog : list stmt) (c : string) : bool :=
  existsb (String.eqb c) (touched prog).
End frames.

Global Arguments stmt : clear implicits.
Notation "c ::= e" := (Assign c e) (at level 70, no associativity).

(** ** [calculate_scores]

    One block per topic, in the order of the source. *)

Section calculate_scores.
Context {n : nat}.

(** [data[c] = sum_score(data[cs])] *)
Definition assign_sum (c : string) (cs : list string) : stmt n :=
  c ::= (λ data, df ← cols data cs; Some (sum_score df)).

(** [data[c] = reverse_score(data[src], min, max)] *)
Definition assign_reverse (c src : string) (min max : Z) : stmt n :=
  c ::= (λ data, s ← col data src; Some (reverse_score s min max)).

(** [data[c] = data[src]] *)
Definition assign_copy (c src : string) : stmt n :=
  c ::= (λ data, col data src).

Definition autonomy : list (stmt n) :=
  [ assign_reverse "autonomy_pressure_rev" "autonomy_pressure" 1 5;
    assign_reverse "autonomy_told_rev" "autonomy_told" 1 5;
    assign_sum "autonomy_score"
      ["autonomy_pressure_rev"; "autonomy_express"; "autonomy_decide";
       "autonomy_told_rev"; "autonomy_myself"; "autonomy_choice"];
    DropCols ["autonomy_pressure_rev"; "autonomy_told_rev"] ].

Definition life_satisfaction : list (stmt n) :=
  [ assign_copy "life_satisfaction_score" "life_satisfaction" ].

Definition optimism : list (stmt n) :=
  [ assign_sum "optimism_score"
      ["optimism_future"; "optimism_best"; "optimism_good";
       "optimism_work"] ].

Definition wellbeing : list (stmt n) :=
  [ assign_sum "wellbeing_score"
      ["wellbeing_optimistic"; "wellbeing_useful"; "wellbeing_relaxed";
       "wellbeing_problems"; "wellbeing_thinking"; "wellbeing_close";
       "wellbeing_mind"] ].

Definition esteem : list (stmt n) :=
  [ "esteem_score" ::= (λ data,
      df ← cols data ["esteem_satisfied"; "esteem_qualities";
                      "esteem_well"; "esteem_value"; "esteem_good"];
      Some (sum_score ((λ x, reverse_score x 1 4) <$> df))) ].

Definition stress : list (stmt n) :=
  [ assign_reverse "stress_confident_rev" "stress_confident" 1 5;
    assign_reverse "stress_way_rev" "stress_way" 1 5;
    "stress_score" ::= (λ data,
      df ← cols data ["stress_control"; "stress_overcome";
                      "stress_confident_rev"; "stress_way_rev"];
      Some (sum_score (frame_sub_int df 1)));
    DropCols ["stress_confident_rev"; "stress_way_rev"];
    assign_reverse "stress_score" "stress_score" 0 16 ].

Definition appearance : list (stmt n) :=
  [ "appearance_score" ::= (λ data,
      s ← col data "appearance_happy"; Some (series_replace 11 NaN s)) ].

Definition negative : list (stmt n) :=
  [ "negative_score" ::= (λ data,
      df ← cols data ["negative_lonely"; "negative_unhappy";
                      "negative_like"; "negative_cry"; "negative_school";
                      "negative_worry"; "negative_sleep"; "negative_wake";
                      "negative_shy"; "negative_scared"];
      Some (sum_score (frame_sub_int df 1)));
    assign_reverse "negative_score" "negative_score" 0 20 ].

Definition lonely : list (stmt n) :=
  [ assign_copy "lonely_score" "lonely" ].

Definition support : list (stmt n) :=
  [ assign_sum "support_score" ["support_ways"; "support_look"];
    assign_reverse "support_score" "support_score" 2 8 ].

Definition sleep : list (stmt n) :=
  [ assign_copy "sleep_score" "sleep" ].

Definition physical : list (stmt n) :=
  [ "physical_score" ::= (λ data,
      d ← col data "physical_days"; h ← col data "physical_hours";
      Some (series_mul d h)) ].

Definition free_like : list (stmt n) :=
  [ assign_reverse "free_like_score" "free_like" 1 5 ].

Definition media : list (stmt n) :=
  [ "media_score" ::= (λ data,
      s ← col data "media_hours"; Some (series_sub_int s 1));
    assign_reverse "media_score" "media_score" 0 8 ].

Definition places : list (stmt n) :=
  [ assign_copy "places_score" "places_freq" ].

(** The body of [for prefix in ['staff', 'home', 'peer']]. *)
Definition talk_prefix (prefix : string) : list (stmt n) :=
  [ (prefix +:+ "_talk_listen_helpful") ::= (λ data,
      l ← col data (prefix +:+ "_talk_listen");
      h ← col data (prefix +:+ "_talk_helpful");
      Some (series_div_int
              (series_add l
                 (series_map
                    [(1, of_int 1); (2, Num (Qc_of_Z 5 / Qc_of_Z 2));
                     (3, of_int 4)]%Z h))
              2));
    (prefix +:+ "_talk_score") ::= (λ data,
      t ← col data (prefix +:+ "_talk");
      lh ← col data (prefix +:+ "_talk_listen_helpful");
      f ← col data (prefix +:+ "_talk_if");
      Some (np_where (series_eq_int t 1) lh f)) ].

Definition talk : list (stmt n) :=
  (["staff"; "home"; "peer"] ≫= talk_prefix) ++
  [ "talk_score" ::= (λ data,
      s ← col data "staff_talk_score";
      h ← col data "home_talk_score";
      p ← col data "peer_talk_score";
      Some (series_add (series_add s h) p));
    DropCols ["staff_talk_listen_helpful"; "home_talk_listen_helpful";
              "peer_talk_listen_helpful"] ].

Definition accept : list (stmt n) :=
  [ assign_sum "accept_score"
      ["accept_staff"; "accept_home"; "accept_local"; "accept_peer"] ].

Definition school_belong : list (stmt n) :=
  [ assign_copy "school_belong_score" "school_belong" ].

Definition staff_relationship : list (stmt n) :=
  [ assign_sum "staff_relationship_score"
      ["staff_interest"; "staff_believe"; "staff_best"; "staff_listen"] ].

Definition home_relationship : list (stmt n) :=
  [ assign_sum "home_relationship_score"
      ["home_interest"; "home_believe"; "home_best"; "home_listen"] ].

Definition home_happy : list (stmt n) :=
  [ assign_copy "home_happy_score" "home_happy" ].

Definition local_env : list (stmt n) :=
  [ "local_safe_rescaled" ::= (λ data,
      s ← col data "local_safe";
      Some (series_map
              [(1, of_int 1);
               (2, Num (Qc_of_Z 2 + Qc_of_Z 1 / Qc_of_Z 3));
               (3, Num (Qc_of_Z 3 + Qc_of_Z 2 / Qc_of_Z 3));
               (4, of_int 5);
               (5, NaN)]%Z s));
    assign_sum "local_env_score"
      ["local_safe_rescaled"; "local_support"; "local_trust";
       "local_neighbours"; "local_places"];
    DropCols ["local_safe_rescaled"];
    assign_reverse "local_env_score" "local_env_score" 5 25 ].

Definition discrim_col : list string :=
  ["discrim_race"; "discrim_gender"; "discrim_orientation";
   "discrim_disability"; "discrim_faith"].

Definition discrim : list (stmt n) :=
  [ "discrim_score" ::= (λ data,
      df ← cols data discrim_col;
      Some (vmap (λ b : bool, if b then of_int 0 else of_int 1)
                 (isin_any [1; 2; 3]%Z df)));
    "discrim_score" ::= (λ data,
      df ← cols data discrim_col;
      s ← col data "discrim_score";
      Some (loc_set_nan (isnull_all df) s)) ].

Definition belong_local : list (stmt n) :=
  [ assign_reverse "belong_local_score" "belong_local" 1 4 ].

Definition wealth : list (stmt n) :=
  [ "wealth_score" ::= (λ data,
      s ← col data "wealth";
      Some (series_map
              [(1, of_int 0); (2, of_int 0); (3, of_int 1); (4, NaN)]%Z
              s)) ].

Definition future : list (stmt n) :=
  [ "future_score" ::= (λ data,
      o ← col data "future_options";
      i ← col data "future_interest";
      s ← col data "future_support";
      Some (series_add
              (series_add
                 (series_map
                    [(1, of_int 1); (2, Num (Qc_of_Z 5 / Qc_of_Z 2));
                     (3, of_int 4); (4, NaN)]%Z o)
                 (series_replace 5 NaN i))
              (series_replace 5 NaN s))) ].

Definition climate : list (stmt n) :=
  [ assign_copy "climate_score" "climate" ].

Definition social : list (stmt n) :=
  [ assign_sum "social_score"
      ["social_along"; "social_time"; "social_support"; "social_hard"] ].

Definition bully : list (stmt n) :=
  [ assign_sum "bully_score"
      ["bully_physical"; "bully_other"; "bully_cyber"];
    assign_reverse "bully_score" "bully_score" 3 12 ].

Definition topics : list (list (stmt n)) :=
  [ autonomy; life_satisfaction; optimism; wellbeing; esteem; stress;
    appearance; negative; lonely; support; sleep; physical; free_like;
    media; places; talk; accept; school_belong; staff_relationship;
    home_relationship; home_happy; local_env; discrim; belong_local;
    wealth; future; climate; social; bully ].

Definition calculate_scores (data : DataFrame n) : option (DataFrame n) :=
  exec (concat topics) data.
End calculate_scores.


(** ** [results_by_school_and_group] *)

(** The four label columns a group can filter on. *)
Inductive label_column : Type :=
  | year_group_lab
  | gender_lab
  | fsm_lab
  | sen_lab.

Global Instance label_column_eq_dec : EqDecision label_column.
Proof. solve_decision. Defined.

(** An entry of [groups]: the string ['All'], or a pair
    [[value, column]]. *)
Inductive group : Type :=
  | GAll
  | GFilter (value : string) (column : label_column).

Global Instance group_eq_dec : EqDecision group.
Proof. solve_decision. Defined.

Definition groups : list group :=
  [ GAll;
    GFilter "Year 8" year_group_lab;
    GFilter "Year 10" year_group_lab;
    GFilter "Girl" gender_lab;
    GFilter "Boy" gender_lab;
    GFilter "FSM" fsm_lab;
    GFilter "Non-FSM" fsm_lab;
    GFilter "SEN" sen_lab;
    GFilter "Non-SEN" sen_lab ].

(** Order of [sort_values] on labels: Python compares strings by code
    point, which on UTF-8 bytes is the order of [String.compare]. *)
Definition string_le (a b : string) : Prop := String.leb a b = true.

Global Instance string_le_dec : RelDecision string_le.
Proof. intros a b. unfold string_le. apply _. Defined.

(** [Series.dropna()] on a column of labels. *)
Definition dropna (l : list (option string)) : list string :=
  omap id l.

(** [Series.drop_duplicates()]: the first occurrence of a value stays. *)
Fixpoint drop_duplicates (l : list string) : list string :=
  match l with
  | [] => []
  | x :: l' => x :: filter (λ y, y ≠ x) (drop_duplicates l')
  end.

(** [Series.sort_values()] *)
Definition sort_values (l : list string) : list string :=
  merge_sort string_le l.

(** [pd.concat(frames)]: no frame at all is a [ValueError]. *)
Definition pd_concat {A} (frames : list (list A)) : option (list A) :=
  match frames with
  | [] => None
  | _ => Some (concat frames)
  end.

Section aggregator.
(** [S]: the columns of a pupil row other than the five labels;
    [R]: the columns an aggregation computes. *)
Context {S R : Type}.

Record Pupil : Type := mkPupil {
  school_lab : option string;
  year_group : option string;
  gender : option string;
  fsm : option string;
  sen : option string;
  answers : S
}.

(** A row of the result: the aggregation's columns and the five labels
    set after it. *)
Record Result : Type := mkResult {
  res_school_lab : string;
  res_year_group_lab : string;
  res_gender_lab : string;
  res_fsm_lab : string;
  res_sen_lab : string;
  res_values : R
}.

(** [row[column]] for a label column of the input. *)
Definition label (column : label_column) (p : Pupil) : option string :=
  match column with
  | year_group_lab => year_group p
  | gender_lab => gender p
  | fsm_lab => fsm p
  | sen_lab => sen p
  end.

(** The same for a row of the result. *)
Definition res_label (column : label_column) (r : Result) : string :=
  match column with
  | year_group_lab => res_year_group_lab r
  | gender_lab => res_gender_lab r
  | fsm_lab => res_fsm_lab r
  | sen_lab => res_sen_lab r
  end.

(** [res[column] = value] *)
Definition set_label (column : label_column) (value : string) (r : Result)
  : Result :=
  match column with
  | year_group_lab =>
      mkResult (res_school_lab r) value (res_gender_lab r) (res_fsm_lab r)
               (res_sen_lab r) (res_values r)
  | gender_lab =>
      mkResult (res_school_lab r) (res_year_group_lab r) value (res_fsm_lab r)
               (res_sen_lab r) (res_values r)
  | fsm_lab =>
      mkResult (res_school_lab r) (res_year_group_lab r) (res_gender_lab r)
               value (res_sen_lab r) (res_values r)
  | sen_lab =>
      mkResult (res_school_lab r) (res_year_group_lab r) (res_gender_lab r)
               (res_fsm_lab r) value (res_values r)
  end.

(** The caller's aggregation ([None]: it raised) and its template for a
    group without pupils; both are data frames, so lists of rows. *)
Context (agg_func : list Pupil → option (list R)).
Context (no_pupils : list R).

(** [data['school_lab'].dropna().drop_duplicates().sort_values()] *)
Definition schools (data : list Pupil) : list string :=
  sort_values (drop_duplicates (dropna (school_lab <$> data))).

(** The rows selected for a school and a group; a missing label is
    equal to no value. *)
Definition to_agg (data : list Pupil) (school : string) (g : group)
  : list Pupil :=
  let rows := filter (λ p, school_lab p = Some school) data in
  match g with
  | GAll => rows
  | GFilter value column => filter (λ p, label column p = Some value) rows
  end.

(** The labels written on every row of one aggregation. *)
Definition set_labels (school : string) (g : group) (x : R) : Result :=
  let r := mkResult school "All" "All" "All" "All" x in
  match g with
  | GAll => r
  | GFilter value column => set_label column value r
  end.

(** One turn of the inner loop: the frame appended to [result_list]. *)
Definition aggregate_group (data : list Pupil) (school : string) (g : group)
  : option (list Result) :=
  let rows := to_agg data school g in
  let res : option (list R) :=
    if decide (length rows = 0%nat) then Some no_pupils else agg_func rows in
  (λ res : list R, set_labels school g <$> res) <$> res.

Definition results_by_school_and_group (data : list Pupil)
  : option (list Result) :=
  result_list ←
    mapM (λ school, mapM (aggregate_group data school) groups)
         (schools data);
  pd_concat (concat result_list).
End aggregator.

Global Arguments Pupil : clear implicits.
Global Arguments Result : clear implicits.


(** ** Which raw items a score is computed from *)

(** The topics computed with [sum_score], each with the raw items that
    go into its sum (for some topics after a reversal, a shift by one or
    a rescaling of an item, and before a reversal of the sum). *)
Definition strict_sum_topics : list (string * list string) :=
  [ ("autonomy_score",
       ["autonomy_pressure"; "autonomy_express"; "autonomy_decide";
        "autonomy_told"; "autonomy_myself"; "autonomy_choice"]);
    ("optimism_score",
       ["optimism_future"; "optimism_best"; "optimism_good";
        "optimism_work"]);
    ("wellbeing_score",
       ["wellbeing_optimistic"; "wellbeing_useful"; "wellbeing_relaxed";
        "wellbeing_problems"; "wellbeing_thinking"; "wellbeing_close";
        "wellbeing_mind"]);
    ("esteem_score",
       ["esteem_satisfied"; "esteem_qualities"; "esteem_well";
        "esteem_value"; "esteem_good"]);
    ("stress_score",
       ["stress_control"; "stress_overcome"; "stress_confident";
        "stress_way"]);
    ("negative_score",
       ["negative_lonely"; "negative_unhappy"; "negative_like";
        "negative_cry"; "negative_school"; "negative_worry";
        "negative_sleep"; "negative_wake"; "negative_shy";
        "negative_scared"]);
    ("support_score", ["support_ways"; "support_look"]);
    ("accept_score",
       ["accept_staff"; "accept_home"; "accept_local"; "accept_peer"]);
    ("staff_relationship_score",
       ["staff_interest"; "staff_believe"; "staff_best"; "staff_listen"]);
    ("home_relationship_score",
       ["home_interest"; "home_believe"; "home_best"; "home_listen"]);
    ("local_env_score",
       ["local_safe"; "local_support"; "local_trust"; "local_neighbours";
        "local_places"]);
    ("social_score",
       ["social_along"; "social_time"; "social_support"; "social_hard"]);
    ("bully_score", ["bully_physical"; "bully_other"; "bully_cyber"]) ].

(** The topics computed from one item, or from a product or a sum
    written with [*] and [+]. *)
Definition direct_topics : list (string * list string) :=
  [ ("life_satisfaction_score", ["life_satisfaction"]);
    ("appearance_score", ["appearance_happy"]);
    ("lonely_score", ["lonely"]);
    ("sleep_score", ["sleep"]);
    ("physical_score", ["physical_days"; "physical_hours"]);
    ("free_like_score", ["free_like"]);
    ("media_score", ["media_hours"]);
    ("places_score", ["places_freq"]);
    ("school_belong_score", ["school_belong"]);
    ("home_happy_score", ["home_happy"]);
    ("belong_local_score", ["belong_local"]);
    ("wealth_score", ["wealth"]);
    ("future_score",
       ["future_options"; "future_interest"; "future_support"]);
    ("climate_score", ["climate"]) ].

(** The items read for the talk scores and for the discrimination
    score. *)
Definition talk_items : list string :=
  ["staff"; "home"; "peer"] ≫= λ prefix,
    [prefix +:+ "_talk_listen"; prefix +:+ "_talk_helpful";
     prefix +:+ "_talk"; prefix +:+ "_talk_if"].

(** Every raw column [calculate_scores] reads. *)
Definition raw_columns : list string :=
  (strict_sum_topics ≫= snd) ++ (direct_topics ≫= snd) ++ talk_items
  ++ discrim_col.

Section frame_predicates.
Context {n : nat}.

(** The frame has every column of [cs]. *)
Definition has_columns (data : DataFrame n) (cs : list string) : Prop :=
  Forall (λ c, is_Some (data !! c)) cs.

(** Column [c] exists and is missing in row [i]. *)
Definition missing_at (data : DataFrame n) (c : string) (i : fin n) : Prop :=
  ∃ s : Series n, data !! c = Some s ∧ s !!! i = NaN.

(** Column [c] exists and holds [x] in row [i]. *)
Definition value_at (data : DataFrame n) (c : string) (i : fin n) (x : cell)
  : Prop :=
  ∃ s : Series n, data !! c = Some s ∧ s !!! i = x.
End frame_predicates.


(** ** Frames used as examples *)

(** A frame with every raw column, each holding the column [fill]. *)
Definition complete_frame {n} (fill : Series n) : DataFrame n :=
  list_to_map ((λ c, (c, fill)) <$> raw_columns).

(** Two pupils; the first did not answer [autonomy_told]. *)
Definition two_pupils : DataFrame 2 :=
  <["autonomy_told" := [# NaN; of_int 2]]>
    (complete_frame [# of_int 2; of_int 3]).

(** One pupil who answered 3 everywhere but left [staff_talk] open. *)
Definition staff_talk_unanswered : DataFrame 1 :=
  <["staff_talk" := [# NaN]]> (complete_frame [# of_int 3]).


(** ** Reading the result of the aggregator *)

(** The five labels of a row of the result. *)
Definition row_labels {R} (r : Result R)
  : string * (string * string * string * string) :=
  (res_school_lab r,
   (res_year_group_lab r, res_gender_lab r, res_fsm_lab r, res_sen_lab r)).

(** The year group, gender, FSM and SEN labels of the rows of a group. *)
Definition group_labels (g : group) : string * string * string * string :=
  match g with
  | GAll => ("All", "All", "All", "All")
  | GFilter value year_group_lab => (value, "All", "All", "All")
  | GFilter value gender_lab => ("All", value, "All", "All")
  | GFilter value fsm_lab => ("All", "All", value, "All")
  | GFilter value sen_lab => ("All", "All", "All", value)
  end.

(** The set of school labels that occur in the data. *)
Definition distinct_schools {S} (data : list (Pupil S)) : gset string :=
  list_to_set (dropna (school_lab <$> data)).

(** The number of rows the aggregator emits for a school and a group
    (0 if the aggregation raises). *)
Definition frame_size {S R} (agg_func : list (Pupil S) → option (list R))
    (no_pupils : list R) (data : list (Pupil S)) (school : string)
    (g : group) : nat :=
  from_option length 0%nat (aggregate_group agg_func no_pupils data school g).

(** ** An aggregation used as an example *)

(** Pupils with one score; the aggregation counts the pupils and takes
    the mean of the scores that are there. *)
Record summary : Type := mkSummary {
  count : nat;
  mean : cell
}.

Definition mean_score (rows : list (Pupil cell)) : option (list summary) :=
  let xs := filter (λ x, x ≠ NaN) (answers <$> rows) in
  Some [ mkSummary (length rows)
           (match xs with
            | [] => NaN
            | _ => cdiv (foldl cadd (of_int 0) xs)
                        (of_int (Z.of_nat (length xs)))
            end) ].

Definition no_scores : list summary := [ mkSummary 0 NaN ].

(** Three pupils of two schools and one without a school.  School A has
    no pupil on free school meals and none with special needs, and one
    of its pupils has no gender recorded. *)
Definition four_pupils : list (Pupil cell) :=
  [ mkPupil (Some "School B") (Some "Year 8") (Some "Girl") (Some "FSM")
            (Some "SEN") (of_int 3);
    mkPupil (Some "School A") (Some "Year 10") None (Some "Non-FSM")
            (Some "Non-SEN") (of_int 4);
    mkPupil (Some "School A") (Some "Year 8") (Some "Boy") (Some "Non-FSM")
            (Some "Non-SEN") NaN;
    mkPupil None (Some "Year 8") (Some "Girl") (Some "FSM") (Some "SEN")
            (of_int 5) ].

(** Pupils none of whom has a school recorded. *)
Definition no_school : list (Pupil cell) :=
  [ mkPupil None (Some "Year 8") (Some "Girl") (Some "FSM") (Some "SEN")
            (of_int 5) ].

(** What the aggregator returns on [four_pupils]. *)
Definition four_pupils_result : list (Result summary) :=
  Eval vm_compute in
    default [] (results_by_school_and_group mean_score no_scores four_pupils).


(** ** The columns of the scored frame *)

(** The columns [calculate_scores] creates for its own use and drops. *)
Definition scratch_columns : list string :=
  [ "autonomy_pressure_rev"; "autonomy_told_rev";
    "stress_confident_rev"; "stress_way_rev";
    "staff_talk_listen_helpful"; "home_talk_listen_helpful";
    "peer_talk_listen_helpful";
    "local_safe_rescaled" ].

(** The score columns it adds. *)
Definition score_columns : list string :=
  (fst <$> strict_sum_topics) ++ (fst <$> direct_topics) ++
  [ "staff_talk_score"; "home_talk_score"; "peer_talk_score"; "talk_score";
    "discrim_score" ].

(** The cell of column [c] in row [i], if the column exists. *)
Definition cell_at {n} (data : DataFrame n) (c : string) (i : fin n)
  : option cell :=
  (λ s : Series n, s !!! i) <$> data !! c.

(** Whether column [c] exists after the statements of [prog], given
    whether it exists before. *)
Fixpoint present {n} (prog : list (stmt n)) (c : string) (before : bool)
  : bool :=
  match prog with
  | [] => before
  | Assign c' _ :: prog' =>
      present prog' c (if String.eqb c c' then true else before)
  | DropCols cs :: prog' =>
      present prog' c (if existsb (String.eqb c) cs then false else before)
  end.

(** The answers that a rule turns into a missing value: the item, the
    code of the answer and the score computed from the item.  They are
    the codes of [replace(code, np.nan)] and the keys mapped to
    [np.nan]. *)
Definition excluded_answers : list (string * Z * string) :=
  [ ("appearance_happy", 11, "appearance_score");
    ("local_safe", 5, "local_env_score");
    ("wealth", 4, "wealth_score");
    ("future_options", 4, "future_score");
    ("future_interest", 5, "future_score");
    ("future_support", 5, "future_score") ]%Z.

(** The items rescaled with [Series.map], with the codes that have a
    value in the dictionary and the score computed from the item. *)
Definition mapped_items : list (string * list Z * string) :=
  [ ("local_safe", [1; 2; 3; 4], "local_env_score");
    ("wealth", [1; 2; 3], "wealth_score");
    ("future_options", [1; 2; 3], "future_score") ]%Z.

(** The answers of a row to the four talk questions of one prefix are
    on their scales: [_talk] is answered, [_talk_listen] and [_talk_if]
    lie between 1 and 4, [_talk_helpful] is 1, 2 or 3. *)
Definition talk_answered {n} (d : DataFrame n) (prefix : string)
    (i : fin n) : Prop :=
  ∃ (t l f : Qc) (h : Z),
    value_at d (prefix +:+ "_talk") i (Num t) ∧
    value_at d (prefix +:+ "_talk_listen") i (Num l) ∧
    value_at d (prefix +:+ "_talk_helpful") i (of_int h) ∧
    value_at d (prefix +:+ "_talk_if") i (Num f) ∧
    Qc_of_Z 1 ≤ l ≤ Qc_of_Z 4 ∧ h ∈ [1; 2; 3]%Z ∧
    Qc_of_Z 1 ≤ f ≤ Qc_of_Z 4.

(** ** [get_between_schools] *)

(** Python's [str.replace(old, new)]: the occurrences of [old] are
    replaced from left to right and do not overlap; with an empty [old],
    [new] is put before every character and at the end. *)
Fixpoint str_replace_from (old new : string) (skip : nat) (s : string)
  : string :=
  match s with
  | EmptyString => EmptyString
  | String a s' =>
      match skip with
      | S k => str_replace_from old new k s'
      | O =>
          if String.prefix old s
          then new +:+ str_replace_from old new (String.length old - 1) s'
          else String a (str_replace_from old new 0 s')
      end
  end.

Fixpoint str_interleave (new s : string) : string :=
  match s with
  | EmptyString => new
  | String a s' => new +:+ String a (str_interleave new s')
  end.

Definition str_replace (old new s : string) : string :=
  match old with
  | EmptyString => str_interleave new s
  | _ => str_replace_from old new 0 s
  end.

Section between_schools.
(** [R]: the columns of the table of scores other than the five labels;
    [variable]: its column ['variable'] (missing is [None]). *)
Context {R : Type} (variable : R → option string).

(** The rows of the chosen topic that carry "All" in the four group
    labels. *)
Definition get_between_schools (df : list (Result R))
    (chosen_variable : string) : list (Result R) :=
  filter (λ r,
    str_replace "_score" "" <$> variable (res_values r) = Some chosen_variable
    ∧ res_year_group_lab r = "All"
    ∧ res_gender_lab r = "All"
    ∧ res_fsm_lab r = "All"
    ∧ res_sen_lab r = "All") df.
End between_schools.

(** An aggregation that only counts the pupils. *)
Definition count_pupils {S} (rows : list (Pupil S)) : option (list nat) :=
  Some [length rows].

(** ** [reverse_categories] *)

(** [x == y] and [x != y] on cells: NaN is equal to nothing. *)
Definition py_eq (x y : cell) : Prop := x = y ∧ x ≠ NaN.
Definition py_ne (x y : cell) : Prop := ¬ py_eq x y.

(** The larger of two cells, for [Series.max()], which skips NaN. *)
Definition cell_max (x y : cell) : cell :=
  match x, y with
  | NaN, _ => y
  | _, NaN => x
  | Num a, Num b => if decide (a ≤ b) then Num b else Num a
  end.

(** The order of [sort_values(ascending=False)]: larger values first,
    NaN last. *)
Definition desc_nan_last (x y : cell) : Prop :=
  match x, y with
  | _, NaN => True
  | NaN, Num _ => False
  | Num a, Num b => b ≤ a
  end.

Global Instance desc_nan_last_dec : RelDecision desc_nan_last.
Proof. intros [|a] [|b]; simpl; apply _. Defined.

Section reverse_categories.
(** [A]: the rows of the frame; [cat]: their column ['cat'];
    [sort_values]: the sort of pandas on that column, whose order of
    equal keys is not fixed. *)
Context {A : Type} (cat : A → cell) (sort_values : list A → list A).

(** [df['cat'].max()]: NaN for a frame without a category. *)
Definition cat_max (df : list A) : cell :=
  foldr cell_max NaN (cat <$> df).

Definition reverse_categories (df : list A) : list A :=
  let new_df := sort_values (filter (λ r, py_ne (cat r) (cat_max df)) df) in
  new_df ++ filter (λ r, py_eq (cat r) (cat_max df)) df.
End reverse_categories.

(** What is asked of the sort: it permutes the rows and leaves them in
    descending order of the key. *)
Definition sorts_descending {A} (cat : A → cell)
    (sort_values : list A → list A) : Prop :=
  ∀ l, sort_values l ≡ₚ l
       ∧ Sorted (λ r r', desc_nan_last (cat r) (cat r')) (sort_values l).

(** Rows of answers with their category, and a merge sort as the sort of
    pandas, for examples. *)
Definition sort_by_cat (l : list (cell * string)) : list (cell * string) :=
  @merge_sort _ (λ r r', desc_nan_last r.1 r'.1)
    (λ r r', desc_nan_last_dec r.1 r'.1) l.

Definition how_often : list (cell * string) :=
  [ (of_int 1, "Never"); (of_int 2, "Sometimes"); (of_int 3, "Often");
    (of_int 4, "No response") ].

(** ** [survey_responses], for the PDF report *)

(** A row of the frame of responses: the question, the answer category,
    the group of pupils, and the remaining columns. *)
Record Response {P : Type} : Type := mkResponse {
  measure_lab : string;
  cat_lab : string;
  pupil_group : string;
  plotted : P
}.
Global Arguments Response : clear implicits.
Global Arguments mkResponse {P} _ _ _ _.

(** [np.unique] on strings: the distinct values in ascending order. *)
Definition np_unique (l : list string) : list string :=
  sort_values (drop_duplicates l).

Definition newline : string := String (Ascii.ascii_of_nat 10) EmptyString.

Section survey_responses.
(** [render]: the bar chart of the rows with the colour of each group at
    a font size, written to a file and read back as base64. *)
Context {P : Type}.
Context (render : list (Response P) → list (string * string) → Z → string).

(** One turn of the loop over the questions: the block appended to
    [content]; [None] is an [IndexError]. *)
Definition plot_measure (font_size : Z) (dataset : list (Response P))
    (measure : string) : option string :=
  let temp_content :=
    [ "<p style='margin:0;'><strong>" +:+ measure +:+ "</strong></p>" ] in
  let df := filter (λ r, measure_lab r = measure) dataset in
  let mask := λ r : Response P, cat_lab r = "Less than 10 responses" in
  let under_10 := filter mask df in
  '(df, temp_content) ←
    (if decide (length under_10 = 1%nat) then
       let df := filter (λ r, ¬ mask r) df in
       dropped ← np_unique (pupil_group <$> under_10) !! 0%nat;
       kept ← np_unique (pupil_group <$> df) !! 0%nat;
       let explanation :=
         newline +:+ "There were less than 10 responses from " +:+ dropped
         +:+ " pupils so results are just" +:+ newline +:+ "shown for "
         +:+ kept +:+ " pupils." in
       Some (df, temp_content ++ ["<p>" +:+ explanation +:+ "</p>"])
     else Some (df, temp_content));
  let unique_groups := np_unique (pupil_group <$> df) in
  colour_map ←
    (if decide (length unique_groups = 1%nat) then
       g0 ← unique_groups !! 0%nat; Some [(g0, "#FF6E4A")]
     else
       g0 ← unique_groups !! 0%nat; g1 ← unique_groups !! 1%nat;
       Some [(g0, "#ffb49a"); (g1, "#e05a38")]);
  let data_uri := render df colour_map font_size in
  let img_tag :=
    newline +:+ "<img src='data:image/png;base64," +:+ data_uri
    +:+ "' alt='" +:+ measure +:+ "'>" in
  let temp_content := temp_content ++ [img_tag] in
  Some (newline +:+ "<div class='responses_container'>" +:+ newline
        +:+ "    " +:+ foldr String.append "" temp_content +:+ newline
        +:+ "</div><br>").

(** [survey_responses(dataset, font_size, output='pdf', content)]: a
    block for every question, in the order the questions first occur. *)
Definition survey_responses (dataset : list (Response P)) (font_size : Z)
    (content : list string) : option (list string) :=
  blocks ← mapM (plot_measure font_size dataset)
                (drop_duplicates (measure_lab <$> dataset));
  Some (content ++ blocks).
End survey_responses.

(** A question whose only row says that fewer than ten pupils answered. *)
Definition only_under_10 {P} (dataset : list (Response P))
    (measure : string) : Prop :=
  ∃ r, filter (λ r, measure_lab r = measure) dataset = [r]
       ∧ cat_lab r = "Less than 10 responses".

(** ** The scales of the scores *)

(** Topics whose items share a scale from 1 to [top]: the score, its
    items, [top], and the lowest and highest score.  For the scores that
    are reversed at the end the two bounds are the [min] and [max]
    handed to [reverse_score]. *)
Definition score_scales : list (string * list string * Z * Z * Z) :=
  [ ("autonomy_score",
     ["autonomy_pressure"; "autonomy_express"; "autonomy_decide";
      "autonomy_told"; "autonomy_myself"; "autonomy_choice"], 5, 6, 30);
    ("esteem_score",
     ["esteem_satisfied"; "esteem_qualities"; "esteem_well";
      "esteem_value"; "esteem_good"], 4, 5, 20);
    ("stress_score",
     ["stress_control"; "stress_overcome"; "stress_confident";
      "stress_way"], 5, 0, 16);
    ("negative_score",
     ["negative_lonely"; "negative_unhappy"; "negative_like";
      "negative_cry"; "negative_school"; "negative_worry";
      "negative_sleep"; "negative_wake"; "negative_shy";
      "negative_scared"], 3, 0, 20);
    ("support_score", ["support_ways"; "support_look"], 4, 2, 8);
    ("free_like_score", ["free_like"], 5, 1, 5);
    ("media_score", ["media_hours"], 9, 0, 8);
    ("belong_local_score", ["belong_local"], 4, 1, 4);
    ("bully_score", ["bully_physical"; "bully_other"; "bully_cyber"],
     4, 3, 12) ]%Z.


(** * Properties *)

(** ** NaN in cell arithmetic *)

Lemma lift2_NaN_l f y : lift2 f NaN y = NaN.
Proof. done. Qed.

Lemma lift2_NaN_r f x : lift2 f x NaN = NaN.
Proof. by destruct x. Qed.

Lemma cadd_NaN_l y : cadd NaN y = NaN.
Proof. done. Qed.
Lemma cadd_NaN_r x : cadd x NaN = NaN.
Proof. apply lift2_NaN_r. Qed.
Lemma csub_NaN_l y : csub NaN y = NaN.
Proof. done. Qed.
Lemma csub_NaN_r x : csub x NaN = NaN.
Proof. apply lift2_NaN_r. Qed.
Lemma cmul_NaN_l y : cmul NaN y = NaN.
Proof. done. Qed.
Lemma cmul_NaN_r x : cmul x NaN = NaN.
Proof. apply lift2_NaN_r. Qed.
Lemma cdiv_NaN_l y : cdiv NaN y = NaN.
Proof. done. Qed.

Lemma dict_get_NaN d : dict_get d NaN = NaN.
Proof. induction d as [|[k v] d IH]; simpl; done. Qed.

Lemma cell_replace_NaN old new : cell_replace old new NaN = NaN.
Proof. done. Qed.

Lemma foldl_cadd_NaN l : foldl cadd NaN l = NaN.
Proof. induction l; simpl; by rewrite ?IHl. Qed.

Lemma foldl_cadd_missing a l : NaN ∈ l → foldl cadd a l = NaN.
Proof.
  revert a. induction l as [|x l IH]; intros a Hin.
  - by apply elem_of_nil in Hin.
  - apply elem_of_cons in Hin as [<-|Hin]; simpl.
    + rewrite cadd_NaN_r. apply foldl_cadd_NaN.
    + by apply IH.
Qed.

Create Rewrite HintDb nan.
Create Rewrite HintDb rows.

Global Hint Rewrite cadd_NaN_l cadd_NaN_r csub_NaN_l csub_NaN_r cmul_NaN_l
  cmul_NaN_r cdiv_NaN_l dict_get_NaN cell_replace_NaN foldl_cadd_NaN : nan.

(** ** Column operations, row by row *)

Section series_lemmas.
Context {n : nat}.
Implicit Types (s : Series n) (df : list (Series n)) (i : fin n).

Lemma foldl_vzip_with_lookup {A B} (f : A → B → A) (init : vec A n)
    (l : list (vec B n)) i :
  foldl (vzip_with f) init l !!! i
  = foldl f (init !!! i) ((λ c, c !!! i) <$> l).
Proof.
  revert init. induction l as [|c l IH]; intros init; simpl; [done|].
  by rewrite IH, vlookup_zip_with.
Qed.

Lemma sum_score_lookup df i :
  sum_score df !!! i = foldl cadd (of_int 0) ((λ c, c !!! i) <$> df).
Proof.
  unfold sum_score. by rewrite foldl_vzip_with_lookup, vlookup_replicate.
Qed.

Lemma reverse_score_lookup s mn mx i :
  reverse_score s mn mx !!! i = csub (of_int (mx + mn)) (s !!! i).
Proof. unfold reverse_score. by rewrite vlookup_map. Qed.

Lemma series_add_lookup s1 s2 i :
  series_add s1 s2 !!! i = cadd (s1 !!! i) (s2 !!! i).
Proof. apply vlookup_zip_with. Qed.

Lemma series_mul_lookup s1 s2 i :
  series_mul s1 s2 !!! i = cmul (s1 !!! i) (s2 !!! i).
Proof. apply vlookup_zip_with. Qed.

Lemma series_sub_int_lookup s k i :
  series_sub_int s k !!! i = csub (s !!! i) (of_int k).
Proof. unfold series_sub_int. by rewrite vlookup_map. Qed.

Lemma series_div_int_lookup s k i :
  series_div_int s k !!! i = cdiv (s !!! i) (of_int k).
Proof. unfold series_div_int. by rewrite vlookup_map. Qed.

Lemma series_eq_int_lookup s k i :
  series_eq_int s k !!! i = ceq (s !!! i) k.
Proof. unfold series_eq_int. by rewrite vlookup_map. Qed.

Lemma series_map_lookup d s i :
  series_map d s !!! i = dict_get d (s !!! i).
Proof. unfold series_map. by rewrite vlookup_map. Qed.

Lemma series_replace_lookup old new s i :
  series_replace old new s !!! i = cell_replace old new (s !!! i).
Proof. unfold series_replace. by rewrite vlookup_map. Qed.

Lemma np_where_lookup (cond : vec bool n) s1 s2 i :
  np_where cond s1 s2 !!! i
  = if (cond !!! i : bool) then s1 !!! i else s2 !!! i.
Proof. unfold np_where. by rewrite !vlookup_zip_with. Qed.

Lemma loc_set_nan_lookup (mask : vec bool n) s i :
  loc_set_nan mask s !!! i = if (mask !!! i : bool) then NaN else s !!! i.
Proof. unfold loc_set_nan. by rewrite vlookup_zip_with. Qed.

Lemma isin_any_lookup ks df i :
  isin_any ks df !!! i = existsb (cell_isin ks) ((λ c, c !!! i) <$> df).
Proof.
  unfold isin_any. rewrite foldl_vzip_with_lookup, vlookup_replicate.
  rewrite <- list_fmap_compose.
  enough (∀ b, foldl orb b ((λ c, c !!! i) ∘ vmap (cell_isin ks) <$> df)
               = b || existsb (cell_isin ks) ((λ c, c !!! i) <$> df))
    as Hgen by apply Hgen.
  induction df as [|c df IH]; intros b; simpl.
  - by rewrite orb_false_r.
  - rewrite IH, vlookup_map. by rewrite orb_assoc.
Qed.

Lemma isnull_all_lookup df i :
  isnull_all df !!! i = forallb isnull ((λ c, c !!! i) <$> df).
Proof.
  unfold isnull_all. rewrite foldl_vzip_with_lookup, vlookup_replicate.
  rewrite <- list_fmap_compose.
  enough (∀ b, foldl andb b ((λ c, c !!! i) ∘ vmap isnull <$> df)
               = b && forallb isnull ((λ c, c !!! i) <$> df))
    as Hgen by apply Hgen.
  induction df as [|c df IH]; intros b; simpl.
  - by rewrite andb_true_r.
  - rewrite IH, vlookup_map. by rewrite andb_assoc.
Qed.
End series_lemmas.

Global Hint Rewrite @sum_score_lookup @reverse_score_lookup
  @series_add_lookup @series_mul_lookup @series_sub_int_lookup
  @series_div_int_lookup @series_eq_int_lookup @series_map_lookup
  @series_replace_lookup @np_where_lookup @loc_set_nan_lookup
  @isin_any_lookup @isnull_all_lookup : rows.

(** ** Reverse scoring *)

(** C4.  [reverse_score] maps every element [x] to [min + max - x],
    with the bounds it is given and nothing taken from the data, and it
    maps a missing element to a missing one. *)
Theorem reverse_score_elementwise {n} (scores : Series n) (min max : Z)
    (i : fin n) :
  reverse_score scores min max !!! i =
    match scores !!! i with
    | NaN => NaN
    | Num x => Num (Qc_of_Z min + Qc_of_Z max - x)
    end.
Proof.
  rewrite reverse_score_lookup. destruct (scores !!! i) as [|x]; simpl.
  - done.
  - by rewrite Z2Qc_inj_add, (Qcplus_comm (Qc_of_Z max)).
Qed.

(** Reversing twice with the same bounds gives the column back, missing
    values included. *)
Lemma reverse_score_twice {n} (scores : Series n) (min max : Z) :
  reverse_score (reverse_score scores min max) min max = scores.
Proof.
  apply vec_eq. intros i. rewrite !reverse_score_lookup.
  destruct (scores !!! i) as [|x]; simpl; [done|]. f_equal. ring.
Qed.

(** C9.  Reverse scoring is involutive: on a non-missing value within
    the bounds, reversing twice with the same bounds returns the value. *)
Theorem reverse_score_involutive {n} (scores : Series n) (min max : Z)
    (i : fin n) (x : Qc) :
  scores !!! i = Num x →
  Qc_of_Z min ≤ x ≤ Qc_of_Z max →
  reverse_score (reverse_score scores min max) min max !!! i = Num x.
Proof. intros Hx _. by rewrite reverse_score_twice. Qed.

Lemma reverse_score_involutive_witness :
  reverse_score (reverse_score [# Num (Qc_of_Z 2); NaN; Num (Qc_of_Z 5)] 1 5)
                1 5 !!! 0%fin = Num (Qc_of_Z 2).
Proof.
  apply (reverse_score_involutive _ 1 5 0%fin (Qc_of_Z 2)).
  - reflexivity.
  - split; by vm_compute.
Defined.


(** ** Running statements *)

Section exec_lemmas.
Context {n : nat}.
Implicit Types (p q : list (stmt n)) (s : stmt n) (d data : DataFrame n).

Lemma exec_app p q data : exec (p ++ q) data = exec p data ≫= exec q.
Proof.
  revert data. induction p as [|s p IH]; intros data; simpl; [done|].
  destruct (exec1 s data); simpl; [apply IH | done].
Qed.

Lemma touches_false_cons s p c :
  touches (s :: p) c = false → (c ∉ touched1 s) ∧ touches p c = false.
Proof.
  unfold touches, touched. simpl. rewrite existsb_app, orb_false_iff.
  intros [H1 H2]. split; [|done].
  intros Hin. apply not_true_iff_false in H1. apply H1.
  apply existsb_exists. exists c. split; [by apply list_elem_of_In|].
  apply String.eqb_refl.
Qed.

Lemma foldr_delete_lookup_notin data cs c :
  c ∉ cs → foldr delete data cs !! c = data !! c.
Proof.
  induction cs as [|x cs IH]; simpl; [done|].
  intros Hn. apply not_elem_of_cons in Hn as [Hne Hn].
  rewrite lookup_delete_ne by done. by apply IH.
Qed.

(** A statement leaves the columns it does not name as they are. *)
Lemma exec1_frame s data data' c :
  exec1 s data = Some data' → c ∉ touched1 s → data' !! c = data !! c.
Proof.
  destruct s as [c0 e|cs]; simpl; intros H Hc.
  - destruct (e data); simplify_eq/=. apply lookup_insert_ne. set_solver.
  - destruct (cols data cs); simplify_eq/=.
    by apply foldr_delete_lookup_notin.
Qed.

Lemma exec_frame p data data' c :
  exec p data = Some data' → touches p c = false → data' !! c = data !! c.
Proof.
  revert data. induction p as [|s p IH]; intros data; simpl.
  - by intros [= ->].
  - destruct (exec1 s data) as [d1|] eqn:E; simpl; [|done].
    intros H Ht. apply touches_false_cons in Ht as [H1 H2].
    rewrite (IH _ H H2). by eapply exec1_frame.
Qed.

(** The run of a list of blocks, seen from block [k]. *)
Lemma exec_concat_focus (bs : list (list (stmt n))) k blk d d' :
  bs !! k = Some blk → exec (concat bs) d = Some d' →
  ∃ d1 d2, exec (concat (take k bs)) d = Some d1 ∧ exec blk d1 = Some d2 ∧
           exec (concat (drop (S k) bs)) d2 = Some d'.
Proof.
  intros Hk H. rewrite <- (take_drop_middle bs k blk Hk) in H.
  rewrite concat_app, concat_cons, exec_app in H.
  destruct (exec (concat (take k bs)) d) as [d1|] eqn:E1; simpl in H; [|done].
  rewrite exec_app in H.
  destruct (exec blk d1) as [d2|] eqn:E2; simpl in H; [|done].
  by exists d1, d2.
Qed.

Lemma calculate_scores_focus k blk d d' :
  topics !! k = Some blk → calculate_scores d = Some d' →
  ∃ d1 d2, exec blk d1 = Some d2 ∧
    (∀ c, touches (concat (take k (@topics n))) c = false →
          d1 !! c = d !! c) ∧
    (∀ c, touches (concat (drop (S k) (@topics n))) c = false →
          d' !! c = d2 !! c).
Proof.
  intros Hk H.
  destruct (exec_concat_focus _ _ _ _ _ Hk H) as (d1 & d2 & H1 & H2 & H3).
  exists d1, d2. split; [done|]. split; intros c Hc; by eapply exec_frame.
Qed.

(** Blocks that each run on the frame their predecessors leave make a
    program that runs. *)
Lemma exec_concat_total (bs : list (list (stmt n))) d :
  (∀ k blk d1, bs !! k = Some blk →
     exec (concat (take k bs)) d = Some d1 → is_Some (exec blk d1)) →
  is_Some (exec (concat bs) d).
Proof.
  induction bs as [|blk bs IH] using rev_ind; intros H; [by eexists|].
  rewrite concat_app, exec_app. simpl. rewrite app_nil_r.
  destruct IH as [d1 Hd1].
  - intros k b d1 Hk Hd1. apply (H k b d1).
    + by apply lookup_app_l_Some.
    + rewrite take_app_le; [done|]. apply lookup_lt_Some in Hk. lia.
  - rewrite Hd1. simpl. apply (H (length bs)).
    + by rewrite lookup_app_r, Nat.sub_diag by done.
    + by rewrite take_app_length.
Qed.
End exec_lemmas.

(** ** Missing items and the scores computed from them *)

Global Arguments cadd : simpl never.
Global Arguments csub : simpl never.
Global Arguments cmul : simpl never.
Global Arguments cdiv : simpl never.
Global Arguments dict_get : simpl never.
Global Arguments cell_replace : simpl never.
Global Arguments ceq : simpl never.

Ltac str_neq := let H := fresh in intros H; discriminate H.

(** Lookups of a named column through inserts and deletes of named
    columns. *)
Ltac simpl_lookups :=
  repeat match goal with
         | H : context [<[?c:=?v]> ?d !! ?c'] |- _ =>
             first [ rewrite (lookup_insert_eq d c v) in H
                   | rewrite (lookup_insert_ne d c c' v) in H by str_neq ]
         | H : context [delete ?c ?d !! ?c'] |- _ =>
             first [ rewrite (lookup_delete_eq d c) in H
                   | rewrite (lookup_delete_ne d c c') in H by str_neq ]
         | |- context [<[?c:=?v]> ?d !! ?c'] =>
             first [ rewrite (lookup_insert_eq d c v)
                   | rewrite (lookup_insert_ne d c c' v) by str_neq ]
         | |- context [delete ?c ?d !! ?c'] =>
             first [ rewrite (lookup_delete_eq d c)
                   | rewrite (lookup_delete_ne d c c') by str_neq ]
         end.

Ltac split_binds :=
  repeat match goal with
         | H : _ ≫= _ = Some _ |- _ =>
             apply bind_Some in H; destruct H as (? & ? & ?)
         | H : mret _ = Some _ |- _ => apply (inj Some) in H
         | H : Some _ = Some _ |- _ => apply (inj Some) in H
         end.

(** Runs block [k] of [topics] on symbolic columns: the reads of the
    block become hypotheses on the input frame, the goal becomes a goal
    on the value the block assigns. *)
Ltac run_block k Hcalc :=
  let d1 := fresh "d1" in
  let d2 := fresh "d2" in
  let Hblk := fresh "Hblk" in
  let Hpre := fresh "Hpre" in
  let Hpost := fresh "Hpost" in
  destruct (calculate_scores_focus k _ _ _ eq_refl Hcalc)
    as (d1 & d2 & Hblk & Hpre & Hpost);
  clear Hcalc;
  unfold missing_at, value_at; rewrite ?Hpost by reflexivity; clear Hpost;
  simpl in Hblk; unfold col in Hblk;
  split_binds; subst; simpl_lookups; simplify_eq;
  repeat match goal with
         | H : d1 !! _ = Some _ |- _ => rewrite Hpre in H by reflexivity
         end;
  clear Hpre.

(** Rewrites the value of a column expression in row [i] to an
    expression on cells, and a cell expression with a NaN operand to
    NaN. *)
Ltac rowwise :=
  repeat (progress (autorewrite with rows; simpl));
  repeat match goal with
         | H : _ !!! _ = NaN |- _ => rewrite H
         end;
  autorewrite with nan.

Ltac split_items Hin :=
  repeat (apply elem_of_cons in Hin as [->|Hin]);
  [..|by apply elem_of_nil in Hin].

Ltac propagate k :=
  let Hin := fresh "Hin" in
  let Hcalc := fresh "Hcalc" in
  let s := fresh "s" in
  let Hs := fresh "Hs" in
  let Hnan := fresh "Hnan" in
  intros Hin Hcalc (s & Hs & Hnan);
  run_block k Hcalc;
  split_items Hin;
  simplify_eq;
  (eexists; split; [reflexivity|]; by rowwise).

Ltac split_topics Hin :=
  repeat (apply elem_of_cons in Hin as [[= -> ->]|Hin]);
  [..|by apply elem_of_nil in Hin].

Section propagation.
Context {n : nat}.
Implicit Types (d : DataFrame n) (i : fin n).

(** A missing item of a [sum_score] topic makes the score missing. *)
Lemma strict_sum_propagates d d' topic items item i :
  (topic, items) ∈ strict_sum_topics → item ∈ items →
  calculate_scores d = Some d' → missing_at d item i →
  missing_at d' topic i.
Proof.
  intros Htopic. unfold strict_sum_topics in Htopic. split_topics Htopic.
  - propagate 0%nat.
  - propagate 2%nat.
  - propagate 3%nat.
  - propagate 4%nat.
  - propagate 5%nat.
  - propagate 7%nat.
  - propagate 9%nat.
  - propagate 16%nat.
  - propagate 18%nat.
  - propagate 19%nat.
  - propagate 21%nat.
  - propagate 27%nat.
  - propagate 28%nat.
Qed.

(** The same for the scores computed without [sum_score]. *)
Lemma direct_propagates d d' topic items item i :
  (topic, items) ∈ direct_topics → item ∈ items →
  calculate_scores d = Some d' → missing_at d item i →
  missing_at d' topic i.
Proof.
  intros Htopic. unfold direct_topics in Htopic. split_topics Htopic.
  - propagate 1%nat.
  - propagate 6%nat.
  - propagate 8%nat.
  - propagate 10%nat.
  - propagate 11%nat.
  - propagate 12%nat.
  - propagate 13%nat.
  - propagate 14%nat.
  - propagate 17%nat.
  - propagate 20%nat.
  - propagate 23%nat.
  - propagate 24%nat.
  - propagate 25%nat.
  - propagate 26%nat.
Qed.
End propagation.


(** ** [calculate_scores] returns on a complete frame *)

Section totality.
Context {n : nat}.
Implicit Types (d : DataFrame n) (i : fin n).

(** Reads of the block under [is_Some]: a column the earlier blocks left
    alone is read from the input frame, where it exists. *)
Ltac read_columns d1 Hframe Hcols :=
  repeat (progress
          (simpl; try unfold col; simpl_lookups;
          try match goal with
          | |- context [d1 !! ?c] =>
              rewrite (Hframe c) by reflexivity;
              let Hin := fresh in
              let H := fresh in
              assert (Hin : c ∈ raw_columns)
                by (apply (bool_decide_unpack _); by vm_compute);
              destruct (Hcols c Hin) as [? H];
              rewrite H; clear H Hin
          end)).

Lemma calculate_scores_total d :
  has_columns d raw_columns → is_Some (calculate_scores d).
Proof.
  intros Hcols. unfold has_columns in Hcols.
  rewrite Forall_forall in Hcols.
  apply exec_concat_total. intros k blk d1 Hk Hd1.
  assert (Hframe : ∀ c, touches (concat (take k (@topics n))) c = false →
                        d1 !! c = d !! c)
    by (intros c Hc; by eapply exec_frame).
  clear Hd1.
  do 29 (destruct k as [|k];
         [ injection Hk as <-;
           unfold autonomy, life_satisfaction, optimism, wellbeing, esteem,
             stress, appearance, negative, lonely, support, sleep, physical,
             free_like, media, places, talk, accept, school_belong,
             staff_relationship, home_relationship, home_happy, local_env,
             discrim, belong_local, wealth, future, climate, social, bully;
           try unfold assign_reverse; try unfold assign_sum;
           try unfold assign_copy;
           read_columns d1 Hframe Hcols; by eexists |]).
  done.
Qed.
End totality.


(** ** Strict sums *)

(** Equality of computed cells: two rationals in canonical form are
    equal when their fractions are. *)
Ltac cells_eq :=
  repeat first
    [ reflexivity
    | apply (f_equal Num); apply Qc_is_canon; reflexivity
    | f_equal ].

(** The scenario of two items on a 1-5 scale, the first reversed: the
    pupil who left the second open has no sum, the pupil who answered
    (2, 3) scores 4 + 3. *)
Example sum_score_reversed_pair :
  sum_score [reverse_score [# of_int 2; of_int 2] 1 5; [# NaN; of_int 3]]
  = [# NaN; of_int 7].
Proof. vm_compute. cells_eq. Qed.

(** C1.  For every topic computed as a strict sum and every row: when
    one of the items of the sum is missing in the row, the topic score
    of the row is missing.  The frame is assumed complete (it has every
    raw column), so that [calculate_scores] returns. *)
Theorem strict_sum_missing {n} (d : DataFrame n) (topic : string)
    (items : list string) (item : string) (i : fin n) :
  (topic, items) ∈ strict_sum_topics →
  item ∈ items →
  has_columns d raw_columns →
  missing_at d item i →
  ∃ d', calculate_scores d = Some d' ∧ missing_at d' topic i.
Proof.
  intros Htopic Hitem Hcols Hmiss.
  destruct (calculate_scores_total d Hcols) as [d' Hd'].
  exists d'. split; [done|]. by eapply strict_sum_propagates.
Qed.

Lemma strict_sum_missing_witness :
  ∃ d', calculate_scores two_pupils = Some d'
        ∧ missing_at d' "autonomy_score" 0%fin.
Proof.
  apply (strict_sum_missing two_pupils "autonomy_score"
           ["autonomy_pressure"; "autonomy_express"; "autonomy_decide";
            "autonomy_told"; "autonomy_myself"; "autonomy_choice"]
           "autonomy_told" 0%fin).
  - apply (bool_decide_unpack _). by vm_compute.
  - apply (bool_decide_unpack _). by vm_compute.
  - apply (bool_decide_unpack _). by vm_compute.
  - exists [# NaN; of_int 2]. split; reflexivity.
Defined.


(** ** The discrimination score *)

Lemma ceq_true x k : ceq x k = true ↔ x = of_int k.
Proof.
  unfold ceq, of_int. destruct x as [|q]; [done|].
  rewrite bool_decide_eq_true. split; [by intros ->|by intros [= ->]].
Qed.

Lemma cell_isin_true ks x : cell_isin ks x = true ↔ x ∈ of_int <$> ks.
Proof.
  unfold cell_isin. rewrite existsb_exists, list_elem_of_fmap.
  split.
  - intros (k & Hk & Hx). exists k.
    split; [by apply ceq_true | by apply list_elem_of_In].
  - intros (k & -> & Hk). exists k.
    split; [by apply list_elem_of_In | by apply ceq_true].
Qed.

Lemma forallb_isnull xs :
  forallb isnull xs = true ↔ Forall (λ x, x = NaN) xs.
Proof.
  rewrite forallb_forall, Forall_forall.
  split; intros H x Hx.
  - apply list_elem_of_In, H in Hx. by destruct x.
  - apply list_elem_of_In, H in Hx. by subst.
Qed.

(** The score of a row, from the five answers of the row. *)
Lemma discrim_score_rows {n} (d d' : DataFrame n) (i : fin n) :
  calculate_scores d = Some d' →
  ∃ cs s, cols d discrim_col = Some cs ∧ d' !! "discrim_score" = Some s ∧
    s !!! i =
      let xs := (λ c : Series n, c !!! i) <$> cs in
      if forallb isnull xs then NaN
      else if existsb (cell_isin [1; 2; 3]%Z) xs then of_int 0
      else of_int 1.
Proof.
  intros Hcalc. run_block 22%nat Hcalc.
  eexists _, _. split; [|split; [reflexivity|]].
  - unfold cols, col, discrim_col. simpl.
    repeat match goal with H : d !! _ = Some _ |- _ => rewrite H; clear H end.
    reflexivity.
  - by rewrite loc_set_nan_lookup, isnull_all_lookup, vlookup_map,
      isin_any_lookup.
Qed.

(** C3.  The discrimination score of a row is missing exactly when all
    five items are missing in the row (so it is there as soon as one
    item is); when it is there, it is 0 if one of the items is 1, 2 or 3
    and 1 otherwise. *)
Theorem discrim_score_any_of {n} (d : DataFrame n) (i : fin n) :
  has_columns d raw_columns →
  ∃ d' cs s,
    calculate_scores d = Some d' ∧
    cols d discrim_col = Some cs ∧
    d' !! "discrim_score" = Some s ∧
    let xs := (λ c : Series n, c !!! i) <$> cs in
    let negative := λ x, x ∈ of_int <$> [1; 2; 3]%Z in
    (s !!! i = NaN ↔ Forall (λ x, x = NaN) xs) ∧
    (Exists (λ x, x ≠ NaN) xs → s !!! i ≠ NaN) ∧
    (Exists negative xs → s !!! i = of_int 0) ∧
    (Exists (λ x, x ≠ NaN) xs → ¬ Exists negative xs → s !!! i = of_int 1).
Proof.
  intros Hcols. destruct (calculate_scores_total d Hcols) as [d' Hd'].
  destruct (discrim_score_rows d d' i Hd') as (cs & s & Hcs & Hs & Hi).
  exists d', cs, s. do 3 (split; [done|]). simpl in *.
  set (xs := (λ c : Series n, c !!! i) <$> cs) in *.
  assert (Hany : existsb (cell_isin [1; 2; 3]%Z) xs = true
                 ↔ Exists (λ x, x ∈ of_int <$> [1; 2; 3]%Z) xs).
  { rewrite existsb_exists, Exists_exists. split.
    - intros (x & Hx & Hin). exists x.
      split; [by apply list_elem_of_In | by apply cell_isin_true].
    - intros (x & Hx & Hin). exists x.
      split; [by apply list_elem_of_In | by apply cell_isin_true]. }
  assert (Hneg : Exists (λ x, x ∈ of_int <$> [1; 2; 3]%Z) xs →
                 forallb isnull xs = false).
  { intros Hex. apply not_true_iff_false. rewrite forallb_isnull.
    intros Hall. apply Exists_exists in Hex as (x & Hx & Hin).
    rewrite Forall_forall in Hall. rewrite (Hall x Hx) in Hin.
    apply list_elem_of_fmap in Hin as (k & Hk & _). done. }
  assert (Hsome : Exists (λ x, x ≠ NaN) xs → forallb isnull xs = false).
  { intros Hex. apply not_true_iff_false. rewrite forallb_isnull.
    intros Hall. apply Exists_exists in Hex as (x & Hx & Hne).
    rewrite Forall_forall in Hall. by apply Hne, Hall. }
  repeat split.
  - rewrite Hi, <- forallb_isnull.
    destruct (forallb isnull xs); [done|].
    by destruct (existsb _ xs).
  - rewrite Hi, <- forallb_isnull. by intros ->.
  - intros Hex. rewrite Hi, (Hsome Hex). by destruct (existsb _ xs).
  - intros Hex. rewrite Hi, (Hneg Hex).
    apply Hany in Hex. by rewrite Hex.
  - intros Hex Hno. rewrite Hi, (Hsome Hex).
    destruct (existsb _ xs) eqn:E; [|done]. exfalso. by apply Hno, Hany.
Qed.

Lemma discrim_score_any_of_witness :
  ∃ d' cs s,
    calculate_scores two_pupils = Some d' ∧
    cols two_pupils discrim_col = Some cs ∧
    d' !! "discrim_score" = Some s ∧
    let xs := (λ c : Series 2, c !!! 0%fin) <$> cs in
    let negative := λ x, x ∈ of_int <$> [1; 2; 3]%Z in
    (s !!! 0%fin = NaN ↔ Forall (λ x, x = NaN) xs) ∧
    (Exists (λ x, x ≠ NaN) xs → s !!! 0%fin ≠ NaN) ∧
    (Exists negative xs → s !!! 0%fin = of_int 0) ∧
    (Exists (λ x, x ≠ NaN) xs → ¬ Exists negative xs →
     s !!! 0%fin = of_int 1).
Proof.
  apply (discrim_score_any_of two_pupils 0%fin).
  apply (bool_decide_unpack _). by vm_compute.
Defined.


(** ** The talk scores *)

(** The dictionary that rescales [_talk_helpful] from 1-3 to 1-4. *)
Local Abbreviation helpful_scale :=
  [(1, of_int 1); (2, Num (Qc_of_Z 5 / Qc_of_Z 2)); (3, of_int 4)]%Z.

(** The talk score of a row for one of the three prefixes: the mean of
    the two follow-up answers when [_talk] is 1, and the answer
    [_talk_if] in every other case, the case of a missing [_talk]
    included. *)
Lemma talk_score_rows {n} (d d' : DataFrame n) (prefix : string) (i : fin n) :
  prefix ∈ ["staff"; "home"; "peer"] →
  calculate_scores d = Some d' →
  ∃ t l h f s : Series n,
    d !! (prefix +:+ "_talk") = Some t ∧
    d !! (prefix +:+ "_talk_listen") = Some l ∧
    d !! (prefix +:+ "_talk_helpful") = Some h ∧
    d !! (prefix +:+ "_talk_if") = Some f ∧
    d' !! (prefix +:+ "_talk_score") = Some s ∧
    s !!! i =
      if ceq (t !!! i) 1
      then cdiv (cadd (l !!! i) (dict_get helpful_scale (h !!! i))) (of_int 2)
      else f !!! i.
Proof.
  intros Hin Hcalc. split_items Hin; simpl.
  all: run_block 15%nat Hcalc.
  all: eexists _, _, _, _, _.
  all: repeat (split; [eassumption || reflexivity|]).
  all: by autorewrite with rows.
Qed.

(** The overall talk score is the sum of the three. *)
Lemma talk_score_sum {n} (d d' : DataFrame n) (i : fin n) :
  calculate_scores d = Some d' →
  ∃ s h p t : Series n,
    d' !! "staff_talk_score" = Some s ∧
    d' !! "home_talk_score" = Some h ∧
    d' !! "peer_talk_score" = Some p ∧
    d' !! "talk_score" = Some t ∧
    t !!! i = cadd (cadd (s !!! i) (h !!! i)) (p !!! i).
Proof.
  intros Hcalc. run_block 15%nat Hcalc.
  eexists _, _, _, _.
  repeat (split; [reflexivity|]).
  by autorewrite with rows.
Qed.

(** A missing answer to [_talk] does not make the score missing: the
    score of the row is the answer to [_talk_if]. *)
Lemma talk_gate_missing {n} (d d' : DataFrame n) (prefix : string)
    (i : fin n) :
  prefix ∈ ["staff"; "home"; "peer"] →
  calculate_scores d = Some d' →
  missing_at d (prefix +:+ "_talk") i →
  ∃ f s : Series n,
    d !! (prefix +:+ "_talk_if") = Some f ∧
    d' !! (prefix +:+ "_talk_score") = Some s ∧
    s !!! i = f !!! i.
Proof.
  intros Hin Hcalc (t' & Ht' & Hnan).
  destruct (talk_score_rows d d' prefix i Hin Hcalc)
    as (t & l & h & f & s & Ht & _ & _ & Hf & Hs & Hi).
  exists f, s. repeat split; [done..|].
  rewrite Hi. simplify_eq. by rewrite Hnan.
Qed.

(** An item of the branch that [_talk] selects does propagate. *)
Lemma talk_branch_missing {n} (d d' : DataFrame n) (prefix : string)
    (i : fin n) :
  prefix ∈ ["staff"; "home"; "peer"] →
  calculate_scores d = Some d' →
  (value_at d (prefix +:+ "_talk") i (of_int 1) ∧
     (missing_at d (prefix +:+ "_talk_listen") i
      ∨ missing_at d (prefix +:+ "_talk_helpful") i))
  ∨ ((∃ x, value_at d (prefix +:+ "_talk") i x ∧ x ≠ of_int 1) ∧
     missing_at d (prefix +:+ "_talk_if") i) →
  missing_at d' (prefix +:+ "_talk_score") i.
Proof.
  intros Hin Hcalc Hcase.
  destruct (talk_score_rows d d' prefix i Hin Hcalc)
    as (t & l & h & f & s & Ht & Hl & Hh & Hf & Hs & Hi).
  exists s. split; [done|]. rewrite Hi.
  destruct Hcase as [[(t' & Ht' & H1) Hm]|[(x & (t' & Ht' & Hx) & Hne) Hm]];
    simplify_eq.
  - rewrite H1. replace (ceq (of_int 1) 1) with true
      by (symmetry; by apply ceq_true).
    destruct Hm as [(l' & Hl' & Hnan)|(h' & Hh' & Hnan)]; simplify_eq;
      rewrite Hnan; by autorewrite with nan.
  - destruct (ceq (t' !!! i) 1) eqn:E; [by apply ceq_true in E|].
    destruct Hm as (f' & Hf' & Hnan). by simplify_eq.
Qed.

(** C2, at the input where the code departs from it.  The pupil did
    not answer [staff_talk] and answered 3 to every other item: the
    staff talk score is 3, the answer to [staff_talk_if], and the
    overall talk score is 9; neither is missing. *)
Theorem talk_gate_missing_substituted :
  missing_at staff_talk_unanswered "staff_talk" 0%fin ∧
  calculate_scores staff_talk_unanswered ≫= (.!! "staff_talk_score")
    = Some [# of_int 3] ∧
  calculate_scores staff_talk_unanswered ≫= (.!! "talk_score")
    = Some [# of_int 9].
Proof.
  split; [|split].
  - exists [# NaN]. split; vm_compute; reflexivity.
  - vm_compute. cells_eq.
  - vm_compute. cells_eq.
Qed.


(** ** The list of schools *)

Lemma string_le_iff a b :
  string_le a b ↔ a = b ∨ String_as_OT.lt a b.
Proof.
  unfold string_le, String.leb.
  destruct (String.compare a b) eqn:E.
  - apply String_as_OT.cmp_eq in E. by split; [left|].
  - apply String_as_OT.cmp_lt in E. by split; [right|].
  - split; [done|]. intros [Heq|Hlt].
    + apply String_as_OT.cmp_eq in Heq.
      unfold String_as_OT.cmp in Heq. congruence.
    + apply String_as_OT.cmp_lt in Hlt.
      unfold String_as_OT.cmp in Hlt. congruence.
Qed.

Global Instance string_le_total : Total string_le.
Proof. intros a b. apply String.leb_total. Qed.

Global Instance string_le_trans : Transitive string_le.
Proof.
  intros a b c. rewrite !string_le_iff.
  intros [->|Hab] [->|Hbc]; auto.
  right. by eapply String_as_OT.lt_trans.
Qed.

Global Instance string_le_antisym : AntiSymm (=) string_le.
Proof. intros a b. apply String.leb_antisym. Qed.

Lemma elem_of_drop_duplicates x l : x ∈ drop_duplicates l ↔ x ∈ l.
Proof.
  induction l as [|y l IH]; simpl; [done|].
  rewrite !elem_of_cons, list_elem_of_filter, IH.
  destruct (decide (x = y)) as [->|Hne]; [split; intros _; by left|].
  split.
  - intros [?|[_ ?]]; [by left|by right].
  - intros [?|?]; [done|by right].
Qed.

Lemma NoDup_drop_duplicates l : NoDup (drop_duplicates l).
Proof.
  induction l as [|y l IH]; simpl; [constructor|].
  constructor.
  - rewrite list_elem_of_filter. by intros [Hne _].
  - by apply NoDup_filter.
Qed.

Section schools_lemmas.
Context {S : Type}.
Implicit Types (data : list (Pupil S)) (p : Pupil S).

Lemma schools_sorted data : StronglySorted string_le (schools data).
Proof. apply (StronglySorted_merge_sort _). Qed.

Lemma schools_NoDup data : NoDup (schools data).
Proof.
  unfold schools, sort_values. rewrite merge_sort_Permutation.
  apply NoDup_drop_duplicates.
Qed.

Lemma elem_of_schools data school :
  school ∈ schools data ↔ ∃ p, p ∈ data ∧ school_lab p = Some school.
Proof.
  unfold schools, sort_values, dropna.
  rewrite merge_sort_Permutation, elem_of_drop_duplicates, list_elem_of_omap.
  split.
  - intros (x & Hx & Hid). apply list_elem_of_fmap in Hx as (p & -> & Hp).
    by exists p.
  - intros (p & Hp & Hs). exists (school_lab p). split; [|done].
    apply list_elem_of_fmap. by exists p.
Qed.

Lemma length_schools data : length (schools data) = size (distinct_schools data).
Proof.
  unfold distinct_schools.
  rewrite <- (size_list_to_set (C:=gset string) _ (schools_NoDup data)).
  f_equal. apply set_eq. intros x. rewrite !elem_of_list_to_set.
  unfold schools, sort_values.
  by rewrite merge_sort_Permutation, elem_of_drop_duplicates.
Qed.
End schools_lemmas.


(** ** The group aggregator *)

Lemma concat_lookup_middle {A} (ls : list (list A)) i l :
  ls !! i = Some l → ∃ before after, concat ls = before ++ l ++ after.
Proof.
  intros Hi. rewrite <- (take_drop_middle ls i l Hi).
  rewrite concat_app, concat_cons. eauto.
Qed.

Lemma elem_of_concat {A} (ls : list (list A)) x :
  x ∈ concat ls ↔ ∃ l, l ∈ ls ∧ x ∈ l.
Proof.
  rewrite list_elem_of_In, in_concat. split.
  - intros (l & Hl & Hx). exists l. by rewrite !list_elem_of_In.
  - intros (l & Hl & Hx). exists l. by rewrite <- !list_elem_of_In.
Qed.

Lemma pd_concat_Some {A} (frames : list (list A)) out :
  pd_concat frames = Some out ↔ frames ≠ [] ∧ out = concat frames.
Proof.
  destruct frames as [|f frames]; simpl; [by split; [|intros [? _]]|].
  split; [by intros [= <-]|by intros [_ ->]].
Qed.

Section aggregator_lemmas.
Context {S R : Type}.
Context (agg_func : list (Pupil S) → option (list R)).
Context (no_pupils : list R).
Implicit Types (data : list (Pupil S)) (p : Pupil S) (g : group)
  (r : Result R) (school : string).

Local Abbreviation aggregate := (aggregate_group agg_func no_pupils).
Local Abbreviation results := (results_by_school_and_group agg_func no_pupils).
Local Abbreviation size_of := (frame_size agg_func no_pupils).

(** *** Labels *)

Lemma row_labels_set_labels school g (x : R) :
  row_labels (set_labels school g x) = (school, group_labels g).
Proof. by destruct g as [|v []]. Qed.

Lemma res_values_set_labels school g (x : R) :
  res_values (set_labels school g x) = x.
Proof. by destruct g as [|v []]. Qed.

Lemma res_label_set_labels school g (x : R) :
  res_school_lab (set_labels school g x) = school ∧
  match g with
  | GAll => ∀ c, res_label c (set_labels school g x) = "All"
  | GFilter value column =>
      res_label column (set_labels school g x) = value ∧
      ∀ c, c ≠ column → res_label c (set_labels school g x) = "All"
  end.
Proof.
  destruct g as [|v []]; (split; [done|]); simpl;
    try (split; [done|]); by intros [].
Qed.

(** *** One turn of the loop *)

Lemma aggregate_group_Some data school g frame :
  aggregate data school g = Some frame →
  ∃ res : list R,
    frame = set_labels school g <$> res ∧
    (if decide (to_agg data school g = []) then res = no_pupils
     else agg_func (to_agg data school g) = Some res).
Proof.
  unfold aggregate_group. intros H.
  apply fmap_Some in H as (res & Hres & ->). exists res. split; [done|].
  destruct (to_agg data school g) as [|p rows]; simpl in *.
  - by injection Hres as <-.
  - done.
Qed.

Lemma aggregate_group_empty data school g :
  to_agg data school g = [] →
  aggregate data school g = Some (set_labels school g <$> no_pupils).
Proof. unfold aggregate_group. by intros ->. Qed.

Lemma aggregate_group_labels data school g frame :
  aggregate data school g = Some frame →
  row_labels <$> frame = replicate (length frame) (school, group_labels g).
Proof.
  intros H. apply aggregate_group_Some in H as (res & -> & _).
  induction res as [|x res IH]; simpl; [done|].
  rewrite row_labels_set_labels. f_equal. apply IH.
Qed.

(** *** The two loops *)

Lemma results_Some data out :
  results data = Some out ↔
  ∃ frames : list (list (list (Result R))),
    Forall2 (λ school fs,
      Forall2 (λ g frame, aggregate data school g = Some frame) groups fs)
      (schools data) frames ∧
    schools data ≠ [] ∧
    out = concat (concat frames).
Proof.
  unfold results_by_school_and_group. rewrite bind_Some. split.
  - intros (frames & Hm & Hc). exists frames.
    apply mapM_Some in Hm. apply pd_concat_Some in Hc as [Hne ->].
    split; [|split; [|done]].
    + eapply Forall2_impl; [done|]. intros school fs H. by apply mapM_Some.
    + intros Hnil. rewrite Hnil in Hm. apply Forall2_nil_inv_l in Hm as ->.
      done.
  - intros (frames & Hm & Hne & ->). exists frames. split.
    + apply mapM_Some. eapply Forall2_impl; [done|].
      intros school fs H. by apply mapM_Some.
    + apply pd_concat_Some. split; [|done].
      destruct Hm as [|school fs ss ff Hfs _]; [done|].
      inversion Hfs; simplify_eq/=. done.
Qed.

Lemma inner_labels data school gs fs :
  Forall2 (λ g frame, aggregate data school g = Some frame) gs fs →
  row_labels <$> concat fs
  = g ← gs; replicate (size_of data school g) (school, group_labels g).
Proof.
  induction 1 as [|g frame gs fs Hg _ IH]; [done|].
  rewrite concat_cons, fmap_app, bind_cons, IH. f_equal.
  rewrite (aggregate_group_labels _ _ _ _ Hg).
  unfold frame_size. by rewrite Hg.
Qed.

Lemma outer_labels data ss frames :
  Forall2 (λ school fs,
    Forall2 (λ g frame, aggregate data school g = Some frame) groups fs)
    ss frames →
  row_labels <$> concat (concat frames)
  = school ← ss; g ← groups;
      replicate (size_of data school g) (school, group_labels g).
Proof.
  induction 1 as [|school fs ss frames Hs _ IH]; [done|].
  rewrite concat_cons, concat_app, fmap_app, bind_cons, IH. f_equal.
  by apply inner_labels.
Qed.

(** Every frame of the loop is a segment of the result. *)
Lemma frame_in_output data out school g :
  results data = Some out → school ∈ schools data → g ∈ groups →
  ∃ frame before after,
    aggregate data school g = Some frame ∧ out = before ++ frame ++ after.
Proof.
  intros Hout Hs Hg. apply results_Some in Hout as (frames & Hf & _ & ->).
  apply list_elem_of_lookup in Hs as [i Hi].
  apply list_elem_of_lookup in Hg as [j Hj].
  destruct (Forall2_lookup_l _ _ _ _ _ Hf Hi) as (fs & Hfs & Hin).
  destruct (Forall2_lookup_l _ _ _ _ _ Hin Hj) as (frame & Hframe & Hagg).
  destruct (concat_lookup_middle _ _ _ Hfs) as (b1 & a1 & H1).
  destruct (concat_lookup_middle _ _ _ Hframe) as (b2 & a2 & H2).
  exists frame, (concat b1 ++ b2), (a2 ++ concat a1). split; [done|].
  rewrite H1, !concat_app, H2. by rewrite <- !app_assoc.
Qed.

(** Every row of the result comes from a frame of the loop. *)
Lemma row_of_output data out r :
  results data = Some out → r ∈ out →
  ∃ school g frame,
    school ∈ schools data ∧ g ∈ groups ∧
    aggregate data school g = Some frame ∧ r ∈ frame.
Proof.
  intros Hout Hr. apply results_Some in Hout as (frames & Hf & _ & ->).
  apply elem_of_concat in Hr as (frame & Hframe & Hr).
  apply elem_of_concat in Hframe as (fs & Hfs & Hframe).
  apply list_elem_of_lookup in Hfs as [i Hi].
  apply list_elem_of_lookup in Hframe as [j Hj].
  destruct (Forall2_lookup_r _ _ _ _ _ Hf Hi) as (school & Hs & Hin).
  destruct (Forall2_lookup_r _ _ _ _ _ Hin Hj) as (g & Hg & Hagg).
  exists school, g, frame.
  split; [by eapply list_elem_of_lookup_2|].
  split; [by eapply list_elem_of_lookup_2|]. done.
Qed.

(** When the aggregation always returns, so does the aggregator, unless
    there is no school. *)
Lemma results_total data :
  schools data ≠ [] →
  (∀ rows, rows ≠ [] → is_Some (agg_func rows)) →
  is_Some (results data).
Proof.
  intros Hne Hagg.
  assert (Hm : is_Some (mapM (λ school, mapM (aggregate data school) groups)
                             (schools data))).
  { apply mapM_is_Some, Forall_forall. intros school _. unfold compose.
    apply mapM_is_Some, Forall_forall. intros g _.
    unfold compose, aggregate_group.
    destruct (to_agg data school g) as [|p rows] eqn:E; simpl; [by eexists|].
    destruct (Hagg (p :: rows)) as [res ->]; [done|]. by eexists. }
  destruct Hm as [frames Hm].
  exists (concat (concat frames)). apply results_Some. exists frames.
  split; [|done].
  apply mapM_Some in Hm. eapply Forall2_impl; [done|].
  intros school fs H. by apply mapM_Some.
Qed.
End aggregator_lemmas.


(** ** What the aggregator emits *)

Section aggregator_claims.
Context {S R : Type}.
Context (agg_func : list (Pupil S) → option (list R)).
Context (no_pupils : list R).
Implicit Types (data : list (Pupil S)) (p : Pupil S) (g : group)
  (r : Result R) (school : string).

Local Abbreviation aggregate := (aggregate_group agg_func no_pupils).
Local Abbreviation results := (results_by_school_and_group agg_func no_pupils).
Local Abbreviation size_of := (frame_size agg_func no_pupils).

(** C5.  For a school and a group without pupils, the loop emits the
    caller's template with the labels set, whatever the aggregation
    function is (it is not called, so it cannot raise): every property
    of the rows of the template, such as a count of 0 and null
    statistics, holds of the emitted rows, and the rows are a segment of
    the result. *)
Theorem empty_group_template data school g :
  to_agg data school g = [] →
  aggregate data school g = Some (set_labels school g <$> no_pupils) ∧
  res_values <$> (set_labels school g <$> no_pupils) = no_pupils ∧
  (∀ P : R → Prop,
     Forall P no_pupils →
     Forall (λ r, P (res_values r)) (set_labels school g <$> no_pupils)) ∧
  (∀ out, school ∈ schools data → g ∈ groups → results data = Some out →
     ∃ before after,
       out = before ++ (set_labels school g <$> no_pupils) ++ after).
Proof.
  intros Hempty.
  assert (Hagg := aggregate_group_empty agg_func no_pupils _ _ _ Hempty).
  split; [done|]. split; [|split].
  - rewrite <- list_fmap_compose. rewrite <- (list_fmap_id no_pupils) at 2.
    apply list_fmap_ext. intros _ x _. apply res_values_set_labels.
  - intros P HP. rewrite Forall_fmap. eapply Forall_impl; [done|].
    intros x Hx. simpl. by rewrite res_values_set_labels.
  - intros out Hs Hg Hout.
    destruct (frame_in_output agg_func no_pupils data out school g Hout Hs Hg)
      as (frame & before & after & Hframe & ->).
    rewrite Hagg in Hframe. injection Hframe as <-. eauto.
Qed.

(** C6, as amended.  When at least one pupil has a school, and the
    aggregation function and the template yield one row each, the result
    has one row for each of the nine groups of each distinct school. *)
Theorem row_count data :
  schools data ≠ [] →
  (∀ rows, rows ≠ [] → ∃ x, agg_func rows = Some [x]) →
  length no_pupils = 1%nat →
  ∃ out, results data = Some out ∧
         length out = (size (distinct_schools data) * (1 + (2 + 2 + 2 + 2)))%nat.
Proof.
  intros Hne Hone Htemplate.
  destruct (results_total agg_func no_pupils data Hne) as [out Hout].
  { intros rows Hrows. destruct (Hone rows Hrows) as [x ->]. by eexists. }
  exists out. split; [done|].
  assert (Hsize : ∀ school g, size_of data school g = 1%nat).
  { intros school g. unfold frame_size, aggregate_group.
    destruct (to_agg data school g) as [|p rows] eqn:E; simpl.
    - by rewrite length_fmap.
    - destruct (Hone (p :: rows)) as [x ->]; done. }
  apply results_Some in Hout as (frames & Hf & _ & ->).
  rewrite <- (length_fmap row_labels).
  rewrite (outer_labels agg_func no_pupils _ _ _ Hf).
  rewrite <- length_schools. clear Hne Hf.
  induction (schools data) as [|school ss IH]; [done|].
  rewrite bind_cons, length_app, IH. simpl. rewrite !Hsize. simpl. lia.
Qed.

(** C7.  The rows of the result follow the loops: the schools in
    ascending order of their label, each once, and for each school the
    groups in the order All, Year 8, Year 10, Girl, Boy, FSM, Non-FSM,
    SEN, Non-SEN, each with the rows of its frame. *)
Theorem row_order data out :
  results data = Some out →
  StronglySorted string_le (schools data) ∧
  NoDup (schools data) ∧
  (∀ school, school ∈ schools data ↔
             ∃ p, p ∈ data ∧ school_lab p = Some school) ∧
  group_labels <$> groups =
    [ ("All", "All", "All", "All");
      ("Year 8", "All", "All", "All"); ("Year 10", "All", "All", "All");
      ("All", "Girl", "All", "All"); ("All", "Boy", "All", "All");
      ("All", "All", "FSM", "All"); ("All", "All", "Non-FSM", "All");
      ("All", "All", "All", "SEN"); ("All", "All", "All", "Non-SEN") ] ∧
  row_labels <$> out =
    school ← schools data; g ← groups;
      replicate (size_of data school g) (school, group_labels g).
Proof.
  intros Hout. split; [apply schools_sorted|].
  split; [apply schools_NoDup|]. split; [apply elem_of_schools|].
  split; [done|].
  apply results_Some in Hout as (frames & Hf & _ & ->).
  by apply outer_labels.
Qed.

(** C8.  Every row of the result carries the label of its school; the
    row of the unfiltered group carries "All" in the four other label
    columns, and a row of a group that filters on one column carries the
    value of the filter in that column and "All" in the three others. *)
Theorem row_labels_all data out r :
  results data = Some out → r ∈ out →
  ∃ school g,
    school ∈ schools data ∧ g ∈ groups ∧
    res_school_lab r = school ∧
    match g with
    | GAll => ∀ c, res_label c r = "All"
    | GFilter value column =>
        res_label column r = value ∧
        ∀ c, c ≠ column → res_label c r = "All"
    end.
Proof.
  intros Hout Hr.
  destruct (row_of_output agg_func no_pupils data out r Hout Hr)
    as (school & g & frame & Hs & Hg & Hframe & Hin).
  exists school, g. split; [done|]. split; [done|].
  apply aggregate_group_Some in Hframe as (res & -> & _).
  apply list_elem_of_fmap in Hin as (x & -> & _).
  apply res_label_set_labels.
Qed.
End aggregator_claims.

(** C10.  A pupil of a school whose label in one column is missing is
    among the rows of the school's unfiltered group, among the rows of
    no group that filters on that column, and among the rows of a group
    that filters on another column exactly when the pupil has the value
    of the filter there. *)
Theorem missing_label_rows {S} (data : list (Pupil S)) (p : Pupil S)
    (school : string) (column : label_column) :
  p ∈ data →
  school_lab p = Some school →
  label column p = None →
  p ∈ to_agg data school GAll ∧
  (∀ value, p ∉ to_agg data school (GFilter value column)) ∧
  (∀ value c, c ≠ column →
     p ∈ to_agg data school (GFilter value c) ↔ label c p = Some value).
Proof.
  intros Hp Hs Hmiss. unfold to_agg. split; [|split].
  - by apply list_elem_of_filter.
  - intros value. rewrite !list_elem_of_filter. intros [Hv _]. congruence.
  - intros value c _. rewrite !list_elem_of_filter.
    split; [by intros [? _]|by intros ?].
Qed.


(** ** The aggregator on the example *)

(** School A comes before School B although its pupils come later in
    the data, and every school has its nine rows. *)
Example four_pupils_labels :
  results_by_school_and_group mean_score no_scores four_pupils
    = Some four_pupils_result ∧
  row_labels <$> four_pupils_result =
    school ← ["School A"; "School B"];
    (λ l, (school, l)) <$>
      [ ("All", "All", "All", "All");
        ("Year 8", "All", "All", "All"); ("Year 10", "All", "All", "All");
        ("All", "Girl", "All", "All"); ("All", "Boy", "All", "All");
        ("All", "All", "FSM", "All"); ("All", "All", "Non-FSM", "All");
        ("All", "All", "All", "SEN"); ("All", "All", "All", "Non-SEN") ].
Proof. split; vm_compute; reflexivity. Qed.

(** The counts of the eighteen rows: the pupil of School A without a
    gender is counted in the first row and in neither the Girl nor the
    Boy row; the rows of the groups without pupils have count 0. *)
Example four_pupils_counts :
  count ∘ res_values <$> four_pupils_result =
    [ 2; 1; 1; 0; 1; 0; 2; 0; 2;
      1; 1; 0; 1; 0; 1; 0; 1; 0 ]%nat.
Proof. vm_compute. reflexivity. Qed.

Lemma empty_group_template_witness :
  aggregate_group mean_score no_scores four_pupils "School A"
                  (GFilter "FSM" fsm_lab)
    = Some (set_labels "School A" (GFilter "FSM" fsm_lab) <$> no_scores) ∧
  res_values <$> (set_labels "School A" (GFilter "FSM" fsm_lab) <$> no_scores)
    = no_scores ∧
  (∀ P : summary → Prop,
     Forall P no_scores →
     Forall (λ r, P (res_values r))
            (set_labels "School A" (GFilter "FSM" fsm_lab) <$> no_scores)) ∧
  (∀ out, "School A" ∈ schools four_pupils →
     GFilter "FSM" fsm_lab ∈ groups →
     results_by_school_and_group mean_score no_scores four_pupils = Some out →
     ∃ before after,
       out = before
             ++ (set_labels "School A" (GFilter "FSM" fsm_lab) <$> no_scores)
             ++ after).
Proof.
  apply (empty_group_template mean_score no_scores four_pupils "School A"
           (GFilter "FSM" fsm_lab)).
  vm_compute. reflexivity.
Defined.

Lemma row_count_witness :
  ∃ out,
    results_by_school_and_group mean_score no_scores four_pupils = Some out ∧
    length out
    = (size (distinct_schools four_pupils) * (1 + (2 + 2 + 2 + 2)))%nat.
Proof.
  apply (row_count mean_score no_scores four_pupils).
  - vm_compute. discriminate.
  - intros rows _. eexists. reflexivity.
  - reflexivity.
Defined.

(** C6, as stated, at a table where no pupil has a school: the claim
    gives 0 rows, the aggregator raises and returns no table. *)
Lemma row_count_no_school :
  ¬ ∃ out,
      results_by_school_and_group mean_score no_scores no_school = Some out ∧
      length out
      = (size (distinct_schools no_school) * (1 + (2 + 2 + 2 + 2)))%nat.
Proof. intros (out & H & _). vm_compute in H. discriminate H. Qed.

Lemma row_order_witness :
  StronglySorted string_le (schools four_pupils) ∧
  NoDup (schools four_pupils) ∧
  (∀ school, school ∈ schools four_pupils ↔
             ∃ p, p ∈ four_pupils ∧ school_lab p = Some school) ∧
  group_labels <$> groups =
    [ ("All", "All", "All", "All");
      ("Year 8", "All", "All", "All"); ("Year 10", "All", "All", "All");
      ("All", "Girl", "All", "All"); ("All", "Boy", "All", "All");
      ("All", "All", "FSM", "All"); ("All", "All", "Non-FSM", "All");
      ("All", "All", "All", "SEN"); ("All", "All", "All", "Non-SEN") ] ∧
  row_labels <$> four_pupils_result =
    school ← schools four_pupils; g ← groups;
      replicate (frame_size mean_score no_scores four_pupils school g)
                (school, group_labels g).
Proof.
  apply (row_order mean_score no_scores four_pupils four_pupils_result).
  vm_compute. reflexivity.
Defined.

Lemma row_labels_all_witness :
  ∃ school g,
    school ∈ schools four_pupils ∧ g ∈ groups ∧
    res_school_lab (mkResult "School A" "All" "Girl" "All" "All"
                             (mkSummary 0 NaN)) = school ∧
    match g with
    | GAll =>
        ∀ c, res_label c (mkResult "School A" "All" "Girl" "All" "All"
                                   (mkSummary 0 NaN)) = "All"
    | GFilter value column =>
        res_label column (mkResult "School A" "All" "Girl" "All" "All"
                                   (mkSummary 0 NaN)) = value ∧
        ∀ c, c ≠ column →
             res_label c (mkResult "School A" "All" "Girl" "All" "All"
                                   (mkSummary 0 NaN)) = "All"
    end.
Proof.
  apply (row_labels_all mean_score no_scores four_pupils four_pupils_result).
  - vm_compute. reflexivity.
  - apply (list_elem_of_lookup_2 _ 3%nat). vm_compute. reflexivity.
Defined.

Lemma missing_label_rows_witness :
  let p := mkPupil (Some "School A") (Some "Year 10") None (Some "Non-FSM")
                   (Some "Non-SEN") (of_int 4) in
  p ∈ to_agg four_pupils "School A" GAll ∧
  (∀ value, p ∉ to_agg four_pupils "School A" (GFilter value gender_lab)) ∧
  (∀ value c, c ≠ gender_lab →
     p ∈ to_agg four_pupils "School A" (GFilter value c)
     ↔ label c p = Some value).
Proof.
  apply (missing_label_rows four_pupils _ "School A" gender_lab).
  - apply (list_elem_of_lookup_2 _ 1%nat). reflexivity.
  - reflexivity.
  - reflexivity.
Defined.


(** * Further properties of the score calculator *)

(** ** The columns it needs *)


Section reads.
Context {n : nat}.
Implicit Types (d : DataFrame n) (i : fin n).






End reads.


(** ** The columns it leaves *)

Section columns.
Context {n : nat}.
Implicit Types (d : DataFrame n) (p : list (stmt n)) (s : stmt n).

Lemma foldr_delete_lookup_in d cs c :
  c ∈ cs → foldr delete d cs !! c = None.
Proof.
  induction cs as [|x cs IH]; simpl; [by intros ?%elem_of_nil|].
  intros [->|Hin]%elem_of_cons; [apply lookup_delete_eq|].
  destruct (decide (x = c)) as [->|Hne]; [apply lookup_delete_eq|].
  rewrite lookup_delete_ne by done. by apply IH.
Qed.

Lemma existsb_eqb_elem_of c (cs : list string) :
  existsb (String.eqb c) cs = bool_decide (c ∈ cs).
Proof.
  induction cs as [|x cs IH]; simpl; [done|].
  rewrite IH. destruct (String.eqb_spec c x) as [->|Hne]; simpl.
  - symmetry. apply bool_decide_eq_true. by left.
  - apply bool_decide_ext. rewrite elem_of_cons.
    split; [by right|by intros [?|?]].
Qed.

Lemma exec1_present s d d' c :
  exec1 s d = Some d' →
  bool_decide (is_Some (d' !! c))
  = present [s] c (bool_decide (is_Some (d !! c))).
Proof.
  destruct s as [c' e|cs]; simpl; intros H.
  - destruct (e d) as [v|]; simplify_eq/=.
    destruct (String.eqb_spec c c') as [->|Hne].
    + rewrite lookup_insert_eq. by apply bool_decide_eq_true.
    + by rewrite lookup_insert_ne.
  - destruct (cols d cs); simplify_eq/=.
    rewrite existsb_eqb_elem_of.
    destruct (decide (c ∈ cs)) as [Hin|Hin].
    + rewrite (bool_decide_eq_true_2 _ Hin).
      rewrite foldr_delete_lookup_in by done.
      apply bool_decide_eq_false. by intros [? ?].
    + rewrite (bool_decide_eq_false_2 _ Hin).
      by rewrite foldr_delete_lookup_notin.
Qed.

Lemma present_cons s p c b : present (s :: p) c b = present p c (present [s] c b).
Proof. by destruct s. Qed.

Lemma exec_present p d d' c :
  exec p d = Some d' →
  bool_decide (is_Some (d' !! c)) = present p c (bool_decide (is_Some (d !! c))).
Proof.
  revert d. induction p as [|s p IH]; intros d H.
  - by injection H as ->.
  - simpl in H. destruct (exec1 s d) as [d1|] eqn:E; simpl in H; [|done].
    rewrite present_cons, (IH _ H). f_equal.
    by apply exec1_present.
Qed.

Lemma present_untouched p c b : touches p c = false → present p c b = b.
Proof.
  revert b. induction p as [|s p IH]; intros b; [done|].
  intros [Hs Hp]%touches_false_cons. rewrite present_cons, IH by done.
  destruct s as [c' e|cs]; simpl in *.
  - destruct (String.eqb_spec c c') as [->|Hne]; [|done].
    exfalso. apply Hs. by left.
  - rewrite existsb_eqb_elem_of. by rewrite bool_decide_eq_false_2.
Qed.

Lemma touches_true_elem_of p c : touches p c = true → c ∈ touched p.
Proof.
  unfold touches. rewrite existsb_eqb_elem_of. apply bool_decide_eq_true.
Qed.

Lemma columns_after d d' c :
  calculate_scores d = Some d' →
  is_Some (d' !! c) ↔
    c ∈ score_columns ∨ (is_Some (d !! c) ∧ c ∉ scratch_columns).
Proof.
  intros Hcalc. pose proof (exec_present _ _ _ c Hcalc) as Hp.
  destruct (touches (concat (@topics n)) c) eqn:Ht.
  - apply touches_true_elem_of in Ht.
    vm_compute in Ht.
    repeat (apply elem_of_cons in Ht as [->|Ht]);
      [..|by apply elem_of_nil in Ht].
    all: vm_compute (present _ _ _) in Hp.
    all: first
      [ apply bool_decide_eq_true in Hp; split; [intros _; left|done];
        apply (bool_decide_unpack _); by vm_compute
      | apply bool_decide_eq_false in Hp; split; [done|];
        intros [Hs|[_ Hs]]; exfalso;
        [ revert Hs; apply (bool_decide_unpack _); by vm_compute
        | apply Hs; apply (bool_decide_unpack _); by vm_compute ] ].
  - rewrite present_untouched in Hp by done.
    assert (Hsame : is_Some (d' !! c) ↔ is_Some (d !! c)).
    { rewrite <- (bool_decide_eq_true (is_Some (d' !! c))), Hp.
      apply bool_decide_eq_true. }
    rewrite Hsame. clear Hp Hsame.
    assert (Hall : Forall (λ c, touches (concat (@topics n)) c = true)
                          (score_columns ++ scratch_columns)).
    { apply Forall_forall. intros x Hx. revert x Hx. apply Forall_forall.
      apply (bool_decide_unpack _). by vm_compute. }
    rewrite Forall_app, !Forall_forall in Hall. destruct Hall as [H1 H2].
    split.
    + intros Hd. right. split; [done|]. intros Hin. apply H2 in Hin. congruence.
    + intros [Hin|[Hd _]]; [|done]. apply H1 in Hin. congruence.
Qed.

Lemma columns_kept d d' c :
  calculate_scores d = Some d' →
  c ∈ raw_columns ∨ ((c ∉ score_columns) ∧ (c ∉ scratch_columns)) →
  d' !! c = d !! c.
Proof.
  intros Hcalc Hc. apply (exec_frame _ _ _ _ Hcalc).
  destruct Hc as [Hraw|[Hscore Hscratch]].
  - revert c Hraw. apply Forall_forall.
    apply (bool_decide_unpack _). by vm_compute.
  - destruct (touches (concat (@topics n)) c) eqn:Ht; [|done].
    apply touches_true_elem_of in Ht. vm_compute in Ht.
    exfalso.
    repeat (apply elem_of_cons in Ht as [->|Ht]);
      [..|by apply elem_of_nil in Ht].
    all: first
      [ apply Hscore; apply (bool_decide_unpack _); by vm_compute
      | apply Hscratch; apply (bool_decide_unpack _); by vm_compute ].
Qed.

(** X2.  On a complete frame, the columns of the scored frame are the
    score columns and the columns of the input other than the scratch
    columns: every score column is there, no scratch column is (not even
    one the input came with), and no other column is added or removed. *)
Theorem calculate_scores_columns d :
  has_columns d raw_columns →
  ∃ d', calculate_scores d = Some d' ∧
    ∀ c, is_Some (d' !! c) ↔
         c ∈ score_columns ∨ (is_Some (d !! c) ∧ c ∉ scratch_columns).
Proof.
  intros Hcols. destruct (calculate_scores_total d Hcols) as [d' Hd'].
  exists d'. split; [done|]. intros c. by apply columns_after.
Qed.

(** X3.  No answer is altered: every raw column, and every other column
    that is neither a score nor a scratch column, holds in the scored
    frame what it held in the input. *)
Theorem calculate_scores_keeps d :
  has_columns d raw_columns →
  ∃ d', calculate_scores d = Some d' ∧
    ∀ c, c ∈ raw_columns ∨ ((c ∉ score_columns) ∧ (c ∉ scratch_columns)) →
         d' !! c = d !! c.
Proof.
  intros Hcols. destruct (calculate_scores_total d Hcols) as [d' Hd'].
  exists d'. split; [done|]. intros c. by apply columns_kept.
Qed.
End columns.

Lemma calculate_scores_columns_witness :
  ∃ d', calculate_scores two_pupils = Some d' ∧
    ∀ c, is_Some (d' !! c) ↔
         c ∈ score_columns
         ∨ (is_Some (two_pupils !! c) ∧ c ∉ scratch_columns).
Proof.
  apply (calculate_scores_columns two_pupils).
  apply (bool_decide_unpack _). by vm_compute.
Defined.

Lemma calculate_scores_keeps_witness :
  ∃ d', calculate_scores two_pupils = Some d' ∧
    ∀ c, c ∈ raw_columns ∨ ((c ∉ score_columns) ∧ (c ∉ scratch_columns)) →
         d' !! c = two_pupils !! c.
Proof.
  apply (calculate_scores_keeps two_pupils).
  apply (bool_decide_unpack _). by vm_compute.
Defined.


(** ** When a score is missing *)

Lemma dict_get_unmapped (d : list (Z * cell)) (x : Qc) :
  (∀ k v, (k, v) ∈ d → v ≠ NaN → x ≠ Qc_of_Z k) →
  dict_get d (Num x) = NaN.
Proof.
  induction d as [|[k v] d IH]; intros H; [done|].
  unfold dict_get. fold dict_get. unfold ceq.
  case_bool_decide as Hk.
  - destruct v as [|q]; [done|]. exfalso.
    by apply (H k (Num q)); [left|..].
  - apply IH. intros k' v' Hin. apply H. by right.
Qed.

(** Moves through the columns the block read: a column that is missing
    in row [i] is the witness, the others are replaced by their value. *)
Ltac find_missing d i :=
  repeat match goal with
         | H : d !! ?c = Some ?x |- _ =>
             destruct (x !!! i) eqn:?;
             [ intros _; exists c;
               split; [apply (bool_decide_unpack _); by vm_compute
                      |by exists x]
             | clear H ]
         end.

Ltac only_if_missing k d i :=
  let Hcalc := fresh "Hcalc" in
  let s := fresh "s" in
  let Hs := fresh "Hs" in
  let Hnan := fresh "Hnan" in
  intros Hcalc;
  run_block k Hcalc;
  intros (s & Hs & Hnan); injection Hs as <-;
  revert Hnan; repeat (progress (autorewrite with rows; simpl));
  find_missing d i;
  cbv [cadd csub cmul cdiv lift2 of_int]; discriminate.

Section missing_iff.
Context {n : nat}.
Implicit Types (d : DataFrame n) (i : fin n).

Lemma strict_sum_only_if d d' topic items i :
  (topic, items) ∈ strict_sum_topics → topic ≠ "local_env_score" →
  calculate_scores d = Some d' → missing_at d' topic i →
  ∃ item, item ∈ items ∧ missing_at d item i.
Proof.
  intros Htopic Hne. unfold strict_sum_topics in Htopic.
  split_topics Htopic; try done; clear Hne.
  - only_if_missing 0%nat d i.
  - only_if_missing 2%nat d i.
  - only_if_missing 3%nat d i.
  - only_if_missing 4%nat d i.
  - only_if_missing 5%nat d i.
  - only_if_missing 7%nat d i.
  - only_if_missing 9%nat d i.
  - only_if_missing 16%nat d i.
  - only_if_missing 18%nat d i.
  - only_if_missing 19%nat d i.
  - only_if_missing 27%nat d i.
  - only_if_missing 28%nat d i.
Qed.

(** X4.  For the strict sums other than the local environment score
    (whose first item has a "don't know" answer), the score of a row is
    missing exactly when one of its items is missing in the row: the sum
    of answers that are all there is always there. *)
Theorem strict_sum_missing_iff d topic items i :
  (topic, items) ∈ strict_sum_topics →
  topic ≠ "local_env_score" →
  has_columns d raw_columns →
  ∃ d', calculate_scores d = Some d' ∧
    (missing_at d' topic i ↔ ∃ item, item ∈ items ∧ missing_at d item i).
Proof.
  intros Htopic Hne Hcols.
  destruct (calculate_scores_total d Hcols) as [d' Hd'].
  exists d'. split; [done|]. split.
  - by apply strict_sum_only_if.
  - intros (item & Hitem & Hmiss). by eapply strict_sum_propagates.
Qed.
End missing_iff.

Lemma strict_sum_missing_iff_witness :
  ∃ d', calculate_scores two_pupils = Some d' ∧
    (missing_at d' "bully_score" 0%fin ↔
     ∃ item, item ∈ ["bully_physical"; "bully_other"; "bully_cyber"]
             ∧ missing_at two_pupils item 0%fin).
Proof.
  apply (strict_sum_missing_iff two_pupils "bully_score").
  - apply (bool_decide_unpack _). by vm_compute.
  - discriminate.
  - apply (bool_decide_unpack _). by vm_compute.
Defined.

(** ** Answers that are turned into a missing value *)

Lemma ceq_of_int a b : ceq (of_int a) b = bool_decide (a = b).
Proof.
  unfold ceq, of_int. apply bool_decide_ext. apply Z2Qc_inj_iff.
Qed.

Ltac split_triples Hin :=
  repeat (apply elem_of_cons in Hin as [[= -> -> ->]|Hin]);
  [..|by apply elem_of_nil in Hin].

Ltac excluded k :=
  let Hcalc := fresh "Hcalc" in
  let s := fresh "s" in
  let Hs := fresh "Hs" in
  let Hv := fresh "Hv" in
  intros Hcalc (s & Hs & Hv);
  run_block k Hcalc; simplify_eq;
  eexists; split; [reflexivity|];
  repeat (progress (autorewrite with rows; simpl));
  rewrite Hv; cbv [dict_get cell_replace]; rewrite !ceq_of_int; simpl;
  by autorewrite with nan.

Ltac unmapped k :=
  let Hcalc := fresh "Hcalc" in
  let s := fresh "s" in
  let Hs := fresh "Hs" in
  let Hv := fresh "Hv" in
  let Hx := fresh "Hx" in
  intros Hcalc (s & Hs & Hv) Hx;
  run_block k Hcalc; simplify_eq;
  eexists; split; [reflexivity|];
  repeat (progress (autorewrite with rows; simpl));
  rewrite Hv, dict_get_unmapped; [by autorewrite with nan|];
  let k := fresh "k" in
  let v := fresh "v" in
  let Hin := fresh "Hin" in
  let Hne := fresh "Hne" in
  intros k v Hin Hne;
  repeat (apply elem_of_cons in Hin as [[= -> ->]|Hin]);
  [..|by apply elem_of_nil in Hin];
  first [ done | apply Hx; apply (bool_decide_unpack _); by vm_compute ].

Section excluded.
Context {n : nat}.
Implicit Types (d : DataFrame n) (i : fin n).

Lemma excluded_propagates d d' item code topic i :
  (item, code, topic) ∈ excluded_answers →
  calculate_scores d = Some d' →
  value_at d item i (of_int code) →
  missing_at d' topic i.
Proof.
  intros Hin. unfold excluded_answers in Hin. split_triples Hin.
  - excluded 6%nat.
  - excluded 21%nat.
  - excluded 24%nat.
  - excluded 25%nat.
  - excluded 25%nat.
  - excluded 25%nat.
Qed.

Lemma unmapped_propagates d d' item codes topic i (x : Qc) :
  (item, codes, topic) ∈ mapped_items →
  calculate_scores d = Some d' →
  value_at d item i (Num x) →
  (∀ k, k ∈ codes → x ≠ Qc_of_Z k) →
  missing_at d' topic i.
Proof.
  intros Hin. unfold mapped_items in Hin. split_triples Hin.
  - unmapped 21%nat.
  - unmapped 24%nat.
  - unmapped 25%nat.
Qed.

(** X5.  The answers a rule excludes make the score missing although
    the item was answered: "prefer not to say" (11) for the appearance
    score, "don't know" (5) to [local_safe] for the local environment
    score, "don't know" (4) for the wealth score, and "unsure" (4, 5, 5)
    to one of the three items of the future score. *)
Theorem excluded_answer_missing d item code topic i :
  (item, code, topic) ∈ excluded_answers →
  has_columns d raw_columns →
  value_at d item i (of_int code) →
  ∃ d', calculate_scores d = Some d' ∧ missing_at d' topic i.
Proof.
  intros Hin Hcols Hv.
  destruct (calculate_scores_total d Hcols) as [d' Hd'].
  exists d'. split; [done|]. by eapply excluded_propagates.
Qed.

(** X6.  For an item rescaled with a dictionary ([local_safe], [wealth],
    [future_options]) every answer that is not one of the codes with a
    value, not only the "don't know" code, makes the score missing. *)
Theorem unmapped_answer_missing d item codes topic i (x : Qc) :
  (item, codes, topic) ∈ mapped_items →
  has_columns d raw_columns →
  value_at d item i (Num x) →
  (∀ k, k ∈ codes → x ≠ Qc_of_Z k) →
  ∃ d', calculate_scores d = Some d' ∧ missing_at d' topic i.
Proof.
  intros Hin Hcols Hv Hx.
  destruct (calculate_scores_total d Hcols) as [d' Hd'].
  exists d'. split; [done|]. by eapply unmapped_propagates.
Qed.
End excluded.

Lemma excluded_answer_missing_witness :
  ∃ d', calculate_scores (<["wealth" := [# of_int 4]]>
                            (complete_frame [# of_int 3])) = Some d'
        ∧ missing_at d' "wealth_score" 0%fin.
Proof.
  apply (excluded_answer_missing _ "wealth" 4 "wealth_score" 0%fin).
  - apply (bool_decide_unpack _). by vm_compute.
  - apply (bool_decide_unpack _). by vm_compute.
  - exists [# of_int 4]. split; vm_compute; reflexivity.
Defined.

Lemma unmapped_answer_missing_witness :
  ∃ d', calculate_scores (<["wealth" := [# of_int 7]]>
                            (complete_frame [# of_int 3])) = Some d'
        ∧ missing_at d' "wealth_score" 0%fin.
Proof.
  apply (unmapped_answer_missing _ "wealth" [1; 2; 3]%Z "wealth_score" 0%fin
           (Qc_of_Z 7)).
  - apply (bool_decide_unpack _). by vm_compute.
  - apply (bool_decide_unpack _). by vm_compute.
  - exists [# of_int 7]. split; vm_compute; reflexivity.
  - intros k Hk H. apply Z2Qc_inj in H. subst k. revert Hk.
    apply (bool_decide_unpack _). by vm_compute.
Defined.


(** ** Ranges *)

(** Inequalities between rationals in canonical form, as inequalities
    between their fractions. *)
Lemma this_Qcplus (x y : Qc) : (this (x + y) == this x + this y)%Q.
Proof. apply Qred_correct. Qed.

Lemma this_Qcminus (x y : Qc) : (this (x - y) == this x - this y)%Q.
Proof.
  unfold Qcminus. rewrite this_Qcplus. unfold Qcopp. simpl.
  by rewrite Qred_correct.
Qed.

Lemma this_Qcdiv_Z (x : Qc) (k : Z) :
  (this (x / Qc_of_Z k) == this x / inject_Z k)%Q.
Proof.
  unfold Qcdiv, Qcmult, Qcinv. simpl. by rewrite !Qred_correct.
Qed.

Ltac qc_lra :=
  unfold Qcle, Qclt in *;
  repeat match goal with
         | H : context [this (_ + _)] |- _ => rewrite this_Qcplus in H
         | H : context [this (_ - _)] |- _ => rewrite this_Qcminus in H
         | H : context [this (_ / Qc_of_Z _)] |- _ => rewrite this_Qcdiv_Z in H
         | |- context [this (_ + _)] => rewrite this_Qcplus
         | |- context [this (_ - _)] => rewrite this_Qcminus
         | |- context [this (_ / Qc_of_Z _)] => rewrite this_Qcdiv_Z
         end;
  simpl in *; unfold inject_Z, Qdiv in *;
  repeat match goal with
         | |- context [Qinv (Z.pos ?p # 1)] =>
             change (Qinv (Z.pos p # 1)) with (1 # p)%Q
         end;
  lra.

(** X7.  Reverse scoring keeps a value that is within the bounds within
    the bounds, and takes the lower bound to the upper bound and the
    upper bound to the lower one. *)
Theorem reverse_score_within_bounds {n} (scores : Series n) (min max : Z)
    (i : fin n) (x : Qc) :
  scores !!! i = Num x →
  Qc_of_Z min ≤ x ≤ Qc_of_Z max →
  ∃ y, reverse_score scores min max !!! i = Num y ∧
       Qc_of_Z min ≤ y ≤ Qc_of_Z max ∧
       (x = Qc_of_Z min → y = Qc_of_Z max) ∧
       (x = Qc_of_Z max → y = Qc_of_Z min).
Proof.
  intros Hx [Hlo Hhi]. rewrite reverse_score_lookup, Hx.
  exists (Qc_of_Z (max + min) - x). split; [done|].
  rewrite Z2Qc_inj_add. repeat split.
  - qc_lra.
  - qc_lra.
  - intros ->. ring.
  - intros ->. ring.
Qed.

(** X8.  Reverse scoring turns the order round: of two values of a
    column, the larger has the smaller reversed value. *)
Theorem reverse_score_antitone {n} (scores : Series n) (min max : Z)
    (i j : fin n) (x x' : Qc) :
  scores !!! i = Num x → scores !!! j = Num x' → x ≤ x' →
  ∃ y y', reverse_score scores min max !!! i = Num y ∧
          reverse_score scores min max !!! j = Num y' ∧ y' ≤ y.
Proof.
  intros Hx Hx' Hle. rewrite !reverse_score_lookup, Hx, Hx'.
  eexists _, _. split; [done|]. split; [done|]. qc_lra.
Qed.

Section talk_range.
Context {n : nat}.
Implicit Types (d : DataFrame n) (i : fin n).

Lemma talk_prefix_range d d' prefix i :
  prefix ∈ ["staff"; "home"; "peer"] →
  calculate_scores d = Some d' →
  talk_answered d prefix i →
  ∃ s : Series n, ∃ z : Qc,
    d' !! (prefix +:+ "_talk_score") = Some s ∧ s !!! i = Num z ∧
    Qc_of_Z 1 ≤ z ≤ Qc_of_Z 4.
Proof.
  intros Hin Hcalc (t & l & f & h & Ht & Hl & Hh & Hf & Hlr & Hhr & Hfr).
  destruct (talk_score_rows d d' prefix i Hin Hcalc)
    as (ct & cl & ch & cf & s & Hct & Hcl & Hch & Hcf & Hs & Hrow).
  destruct Ht as (? & ? & Ht), Hl as (? & ? & Hl), Hh as (? & ? & Hh),
    Hf as (? & ? & Hf). simplify_eq.
  exists s. rewrite Hrow, Ht, Hl, Hh, Hf.
  destruct (ceq (Num t) 1); [|by exists f].
  destruct Hlr as [Hl1 Hl4].
  repeat (apply elem_of_cons in Hhr as [->|Hhr]);
    [..|by apply elem_of_nil in Hhr].
  all: cbv [dict_get]; rewrite !ceq_of_int; simpl.
  all: cbv [cdiv cadd lift2 of_int].
  all: eexists; split; [done|]; split; [reflexivity|].
  all: split; qc_lra.
Qed.

(** X9.  When the talk questions of a row are answered on their scales,
    each of the three talk scores lies between 1 and 4 and the overall
    talk score between 3 and 12, whatever the answers to [_talk]. *)
Theorem talk_score_range d i :
  has_columns d raw_columns →
  (∀ prefix, prefix ∈ ["staff"; "home"; "peer"] → talk_answered d prefix i) →
  ∃ d', calculate_scores d = Some d' ∧
    (∀ prefix, prefix ∈ ["staff"; "home"; "peer"] →
       ∃ z, value_at d' (prefix +:+ "_talk_score") i (Num z)
            ∧ Qc_of_Z 1 ≤ z ≤ Qc_of_Z 4) ∧
    ∃ y, value_at d' "talk_score" i (Num y) ∧ Qc_of_Z 3 ≤ y ≤ Qc_of_Z 12.
Proof.
  intros Hcols Hans.
  destruct (calculate_scores_total d Hcols) as [d' Hd'].
  exists d'. split; [done|].
  assert (Hp : ∀ prefix, prefix ∈ ["staff"; "home"; "peer"] →
    ∃ s : Series n, ∃ z : Qc,
      d' !! (prefix +:+ "_talk_score") = Some s ∧ s !!! i = Num z ∧
      Qc_of_Z 1 ≤ z ≤ Qc_of_Z 4).
  { intros prefix Hin. apply (talk_prefix_range d); [done..|by apply Hans]. }
  split.
  - intros prefix Hin. destruct (Hp prefix Hin) as (s & z & Hs & Hz & Hr).
    exists z. split; [by exists s|done].
  - destruct (talk_score_sum d d' i Hd')
      as (s & h & p & t & Hs & Hh & Hpe & Ht & Hsum).
    destruct (Hp "staff") as (s' & zs & Hs' & Hzs & [Hs1 Hs4]);
      [by left|].
    destruct (Hp "home") as (h' & zh & Hh' & Hzh & [Hh1 Hh4]);
      [by right; left|].
    destruct (Hp "peer") as (p' & zp & Hp' & Hzp & [Hp1 Hp4]);
      [by right; right; left|].
    pose proof (eq_trans (eq_sym Hs') Hs) as [= ->].
    pose proof (eq_trans (eq_sym Hh') Hh) as [= ->].
    pose proof (eq_trans (eq_sym Hp') Hpe) as [= ->].
    exists (zs + zh + zp). split.
    + exists t. split; [done|]. by rewrite Hsum, Hzs, Hzh, Hzp.
    + split; qc_lra.
Qed.
End talk_range.

(** ** Scores of items on a scale *)

(** Runs block [k] at row [i] with every item read replaced by its
    value, which the hypothesis [Hitems] bounds. *)
Ltac in_scale k d i :=
  let Hcalc := fresh "Hcalc" in
  let Hitems := fresh "Hitems" in
  intros Hcalc Hitems; revert Hitems;
  run_block k Hcalc; intros Hitems;
  repeat match goal with
         | H : d !! ?c = Some ?s |- _ =>
             let x := fresh "x" in
             let s' := fresh "s" in
             let Hs := fresh "Hs" in
             let Hx := fresh "Hx" in
             let Hlo := fresh "Hlo" in
             let Hhi := fresh "Hhi" in
             destruct (Hitems c) as (x & (s' & Hs & Hx) & Hlo & Hhi);
             [apply (bool_decide_unpack _); by vm_compute|];
             rewrite H in Hs; injection Hs as <-; clear H
         end;
  clear Hitems;
  eexists _, _; split; [reflexivity|];
  repeat (progress (autorewrite with rows; rewrite ?vlookup_map; simpl));
  repeat match goal with
         | H : _ !!! i = Num _ |- _ => rewrite H; clear H
         end;
  cbv [cadd csub cmul cdiv lift2 of_int];
  split; [reflexivity|];
  rewrite ?Z2Qc_inj_add;
  split; qc_lra.

Section scales.
Context {n : nat}.
Implicit Types (d : DataFrame n) (i : fin n).

Lemma score_in_scale d d' topic items top lo hi i :
  (topic, items, top, lo, hi) ∈ score_scales →
  calculate_scores d = Some d' →
  (∀ item, item ∈ items →
     ∃ x, value_at d item i (Num x) ∧ Qc_of_Z 1 ≤ x ≤ Qc_of_Z top) →
  ∃ (s : Series n) (y : Qc),
    d' !! topic = Some s ∧ s !!! i = Num y ∧ Qc_of_Z lo ≤ y ≤ Qc_of_Z hi.
Proof.
  intros Htopic. unfold score_scales in Htopic.
  repeat (apply elem_of_cons in Htopic as [[= -> -> -> -> ->]|Htopic]);
    [..|by apply elem_of_nil in Htopic].
  - in_scale 0%nat d i.
  - in_scale 4%nat d i.
  - in_scale 5%nat d i.
  - in_scale 7%nat d i.
  - in_scale 9%nat d i.
  - in_scale 12%nat d i.
  - in_scale 13%nat d i.
  - in_scale 23%nat d i.
  - in_scale 28%nat d i.
Qed.

(** X20.  A score whose items all lie on their scale lies between its
    lowest and its highest score; for the scores reversed at the end
    these are the bounds handed to [reverse_score], so the reversal
    stays on the scale. *)
Theorem score_within_scale d topic items top lo hi i :
  (topic, items, top, lo, hi) ∈ score_scales →
  has_columns d raw_columns →
  (∀ item, item ∈ items →
     ∃ x, value_at d item i (Num x) ∧ Qc_of_Z 1 ≤ x ≤ Qc_of_Z top) →
  ∃ d' y, calculate_scores d = Some d' ∧
          value_at d' topic i (Num y) ∧ Qc_of_Z lo ≤ y ≤ Qc_of_Z hi.
Proof.
  intros Htopic Hcols Hitems.
  destruct (calculate_scores_total d Hcols) as [d' Hd'].
  destruct (score_in_scale d d' _ _ _ _ _ i Htopic Hd' Hitems)
    as (s & y & Hs & Hy & Hr).
  exists d', y. split; [done|]. split; [by exists s|done].
Qed.
End scales.


(** ** Scores are computed pupil by pupil *)

Ltac same_row k d1 d2 i j Hloc :=
  let H1 := fresh "Hcalc1" in
  let H2 := fresh "Hcalc2" in
  intros H1 H2;
  unfold cell_at;
  run_block k H1; run_block k H2;
  simpl; f_equal;
  repeat (progress (autorewrite with rows; rewrite ?vlookup_map; simpl));
  repeat match goal with
         | Ha : d1 !! ?c = Some ?s, Hb : d2 !! ?c = Some ?s' |- _ =>
             let E := fresh in
             assert (E : s !!! i = s' !!! j)
               by (let Hc := fresh in
                   assert (Hc : c ∈ raw_columns)
                     by (apply (bool_decide_unpack _); by vm_compute);
                   apply Hloc in Hc; unfold cell_at in Hc;
                   rewrite Ha, Hb in Hc; by injection Hc);
             rewrite ?E; clear Ha E
         end;
  reflexivity.

Lemma scores_same_row {n m} (d1 d1' : DataFrame n) (d2 d2' : DataFrame m)
    (i : fin n) (j : fin m) (c : string) :
  (∀ c, c ∈ raw_columns → cell_at d1 c i = cell_at d2 c j) →
  c ∈ score_columns →
  calculate_scores d1 = Some d1' → calculate_scores d2 = Some d2' →
  cell_at d1' c i = cell_at d2' c j.
Proof.
  intros Hloc Hc. vm_compute in Hc.
  repeat (apply elem_of_cons in Hc as [->|Hc]);
    [..|by apply elem_of_nil in Hc].
  - same_row 0%nat d1 d2 i j Hloc.
  - same_row 2%nat d1 d2 i j Hloc.
  - same_row 3%nat d1 d2 i j Hloc.
  - same_row 4%nat d1 d2 i j Hloc.
  - same_row 5%nat d1 d2 i j Hloc.
  - same_row 7%nat d1 d2 i j Hloc.
  - same_row 9%nat d1 d2 i j Hloc.
  - same_row 16%nat d1 d2 i j Hloc.
  - same_row 18%nat d1 d2 i j Hloc.
  - same_row 19%nat d1 d2 i j Hloc.
  - same_row 21%nat d1 d2 i j Hloc.
  - same_row 27%nat d1 d2 i j Hloc.
  - same_row 28%nat d1 d2 i j Hloc.
  - same_row 1%nat d1 d2 i j Hloc.
  - same_row 6%nat d1 d2 i j Hloc.
  - same_row 8%nat d1 d2 i j Hloc.
  - same_row 10%nat d1 d2 i j Hloc.
  - same_row 11%nat d1 d2 i j Hloc.
  - same_row 12%nat d1 d2 i j Hloc.
  - same_row 13%nat d1 d2 i j Hloc.
  - same_row 14%nat d1 d2 i j Hloc.
  - same_row 17%nat d1 d2 i j Hloc.
  - same_row 20%nat d1 d2 i j Hloc.
  - same_row 23%nat d1 d2 i j Hloc.
  - same_row 24%nat d1 d2 i j Hloc.
  - same_row 25%nat d1 d2 i j Hloc.
  - same_row 26%nat d1 d2 i j Hloc.
  - same_row 15%nat d1 d2 i j Hloc.
  - same_row 15%nat d1 d2 i j Hloc.
  - same_row 15%nat d1 d2 i j Hloc.
  - same_row 15%nat d1 d2 i j Hloc.
  - same_row 22%nat d1 d2 i j Hloc.
Qed.

(** X10.  The scores of a pupil depend on the answers of that pupil
    only: two rows, of the same frame or of two frames of any height,
    that hold the same answers get the same scores, whatever the other
    rows hold. *)
Theorem scores_row_local {n m} (d1 : DataFrame n) (d2 : DataFrame m)
    (i : fin n) (j : fin m) :
  has_columns d1 raw_columns → has_columns d2 raw_columns →
  (∀ c, c ∈ raw_columns → cell_at d1 c i = cell_at d2 c j) →
  ∃ d1' d2',
    calculate_scores d1 = Some d1' ∧ calculate_scores d2 = Some d2' ∧
    ∀ c, c ∈ score_columns → cell_at d1' c i = cell_at d2' c j.
Proof.
  intros H1 H2 Hloc.
  destruct (calculate_scores_total d1 H1) as [d1' Hd1].
  destruct (calculate_scores_total d2 H2) as [d2' Hd2].
  exists d1', d2'. split; [done|]. split; [done|].
  intros c Hc. by eapply scores_same_row.
Qed.

(** X19.  Scoring a scored frame changes nothing: the scores are
    computed from the raw answers, which are kept, and the scratch
    columns are dropped again. *)
Theorem calculate_scores_idempotent {n} (d : DataFrame n) :
  has_columns d raw_columns →
  ∃ d', calculate_scores d = Some d' ∧ calculate_scores d' = Some d'.
Proof.
  intros Hcols. destruct (calculate_scores_total d Hcols) as [d' Hd'].
  assert (Hraw : ∀ c, c ∈ raw_columns → d' !! c = d !! c).
  { intros c Hc. apply (columns_kept _ _ _ Hd'). by left. }
  assert (Hcols' : has_columns d' raw_columns).
  { apply Forall_forall. intros c Hc. rewrite (Hraw c Hc).
    revert c Hc. by apply Forall_forall. }
  destruct (calculate_scores_total d' Hcols') as [d'' Hd''].
  exists d'. split; [done|]. rewrite Hd''. f_equal. apply map_eq. intros c.
  pose proof (columns_after _ _ c Hd') as Hc'.
  pose proof (columns_after _ _ c Hd'') as Hc''.
  destruct (decide (c ∈ score_columns)) as [Hs|Hs].
  - destruct (proj2 Hc' (or_introl Hs)) as [s' Hs'].
    destruct (proj2 Hc'' (or_introl Hs)) as [s'' Hs''].
    rewrite Hs', Hs''. f_equal. apply vec_eq. intros i.
    assert (Hloc : ∀ c, c ∈ raw_columns → cell_at d c i = cell_at d' c i).
    { intros c0 Hc0. unfold cell_at. by rewrite (Hraw c0 Hc0). }
    pose proof (scores_same_row d d' d' d'' i i c Hloc Hs Hd' Hd'') as H.
    unfold cell_at in H. rewrite Hs', Hs'' in H. by injection H.
  - destruct (decide (c ∈ scratch_columns)) as [Ht|Ht].
    + assert (d' !! c = None) as ->.
      { apply eq_None_not_Some. rewrite Hc'. tauto. }
      apply eq_None_not_Some. rewrite Hc''. tauto.
    + apply (columns_kept _ _ _ Hd''). by right.
Qed.


(** * Further properties of the group aggregator *)

Section aggregator_extras.
Context {S R : Type}.
Context (agg_func : list (Pupil S) → option (list R)).
Context (no_pupils : list R).
Implicit Types (data : list (Pupil S)) (p : Pupil S) (g : group)
  (r : Result R) (school : string).

Local Abbreviation aggregate := (aggregate_group agg_func no_pupils).
Local Abbreviation results := (results_by_school_and_group agg_func no_pupils).

(** X11.  The aggregator returns exactly when some pupil has a school
    and the aggregation function returns on the rows of every school and
    group that has rows: without any school it raises (the list of
    frames to concatenate is empty), and an exception of the aggregation
    function on one group is an exception of the aggregator. *)
Theorem results_returns_iff data :
  is_Some (results data) ↔
  schools data ≠ [] ∧
  ∀ school g, school ∈ schools data → g ∈ groups →
              to_agg data school g ≠ [] →
              is_Some (agg_func (to_agg data school g)).
Proof.
  split.
  - intros [out Hout]. split.
    + by apply results_Some in Hout as (frames & _ & Hne & _).
    + intros school g Hs Hg Hrows.
      destruct (frame_in_output agg_func no_pupils data out school g
                  Hout Hs Hg) as (frame & _ & _ & Hframe & _).
      apply aggregate_group_Some in Hframe as (res & _ & Hres).
      destruct (decide (to_agg data school g = [])); [done|]. by eexists.
  - intros [Hne Hagg].
    assert (Hm : is_Some (mapM (λ school,
                   mapM (aggregate data school) groups) (schools data))).
    { apply mapM_is_Some, Forall_forall. intros school Hs. unfold compose.
      apply mapM_is_Some, Forall_forall. intros g Hg.
      unfold compose, aggregate_group.
      destruct (to_agg data school g) as [|p rows] eqn:E; simpl;
        [by eexists|].
      destruct (Hagg school g Hs Hg) as [res Hres]; [by rewrite E|].
      rewrite E in Hres. rewrite Hres. by eexists. }
    destruct Hm as [frames Hm].
    exists (concat (concat frames)). apply results_Some. exists frames.
    split; [|done].
    apply mapM_Some in Hm. eapply Forall2_impl; [done|].
    intros school fs H. by apply mapM_Some.
Qed.

(** X12.  The whole-school group of a school of the list is never
    empty, so its rows are always computed by the aggregation function
    and never taken from the template. *)
Theorem whole_school_aggregated data school :
  school ∈ schools data →
  to_agg data school GAll ≠ [] ∧
  aggregate data school GAll
  = (λ res : list R, set_labels school GAll <$> res)
      <$> agg_func (to_agg data school GAll).
Proof.
  intros (p & Hp & Hs)%elem_of_schools.
  assert (Hne : to_agg data school GAll ≠ []).
  { intros Hnil. assert (Hin : p ∈ to_agg data school GAll)
      by by apply list_elem_of_filter.
    rewrite Hnil in Hin. by apply elem_of_nil in Hin. }
  split; [done|]. unfold aggregate_group.
  destruct (to_agg data school GAll); done.
Qed.

Lemma filter_three_way {A} (P1 P2 : A → Prop)
    `{!∀ x, Decision (P1 x), !∀ x, Decision (P2 x)} (l : list A) :
  (∀ x, P1 x → P2 x → False) →
  (length (filter P1 l) + length (filter P2 l)
   + length (filter (λ x, ¬ P1 x ∧ ¬ P2 x) l) = length l)%nat.
Proof.
  intros Hex. induction l as [|x l IH]; [done|].
  rewrite !filter_cons.
  destruct (decide (P1 x)) as [H1|H1], (decide (P2 x)) as [H2|H2];
    [by destruct (Hex x)|..].
  - rewrite decide_False by (by intros [? _]). simpl. lia.
  - rewrite decide_False by (by intros [_ ?]). simpl. lia.
  - rewrite decide_True by done. simpl. lia.
Qed.

(** X13.  The two groups of a label column never share a pupil, and
    together they leave out exactly the pupils of the school whose label
    in that column is missing or is another category: the sizes of the
    three sets add up to the size of the whole-school group. *)
Theorem group_sizes_add_up data school column (v1 v2 : string) :
  v1 ≠ v2 →
  (length (to_agg data school (GFilter v1 column))
   + length (to_agg data school (GFilter v2 column))
   + length (filter (λ p, ¬ label column p = Some v1
                          ∧ ¬ label column p = Some v2)
                    (to_agg data school GAll))
   = length (to_agg data school GAll))%nat.
Proof.
  intros Hne. unfold to_agg. apply filter_three_way.
  intros p H1 H2. congruence.
Qed.

(** X14.  With an aggregation function that does not look at the order
    of its rows, the aggregator does not look at the order of the pupils:
    a permutation of the input gives the same result. *)
Theorem results_permutation data data' :
  data ≡ₚ data' →
  (∀ rows rows', rows ≡ₚ rows' → agg_func rows = agg_func rows') →
  results_by_school_and_group agg_func no_pupils data
  = results_by_school_and_group agg_func no_pupils data'.
Proof.
  intros Hperm Hagg.
  assert (Hschools : schools data = schools data').
  { apply (StronglySorted_unique string_le);
      [apply schools_sorted..|].
    apply NoDup_Permutation; [apply schools_NoDup..|].
    intros school. rewrite !elem_of_schools.
    by setoid_rewrite Hperm. }
  assert (Hrows : ∀ school g,
            to_agg data school g ≡ₚ to_agg data' school g).
  { intros school g. unfold to_agg. destruct g; by rewrite Hperm. }
  unfold results_by_school_and_group. rewrite Hschools.
  f_equal. apply mapM_ext. intros school. apply mapM_ext. intros g.
  unfold aggregate_group. simpl.
  rewrite (Permutation_length (Hrows school g)).
  by rewrite (Hagg _ _ (Hrows school g)).
Qed.
End aggregator_extras.


(** * [get_between_schools] on the result of the aggregator *)

Lemma filter_concat {A} (P : A → Prop) `{!∀ x, Decision (P x)}
    (ls : list (list A)) :
  filter P (concat ls) = concat (filter P <$> ls).
Proof.
  induction ls as [|l ls IH]; [done|].
  simpl. by rewrite filter_app, IH.
Qed.

Section between_schools_lemmas.
Context {S R : Type}.
Context (agg_func : list (Pupil S) → option (list R)).
Context (no_pupils : list R).
Context (variable : R → option string).
Implicit Types (data : list (Pupil S)) (g : group) (r : Result R)
  (school : string).

Local Abbreviation aggregate := (aggregate_group agg_func no_pupils).
Local Abbreviation results := (results_by_school_and_group agg_func no_pupils).

(** The rows of the topic in a frame. *)
Local Abbreviation of_topic chosen :=
  (filter (λ r, str_replace "_score" "" <$> variable (res_values r)
                = Some chosen)).

Lemma between_schools_frame data school g frame chosen :
  g ∈ groups → aggregate data school g = Some frame →
  get_between_schools variable frame chosen
  = if decide (g = GAll) then of_topic chosen frame else [].
Proof.
  intros Hg Hframe.
  apply aggregate_group_Some in Hframe as (res & -> & _).
  unfold get_between_schools.
  induction res as [|x res IH]; [by destruct (decide _)|].
  rewrite !fmap_cons, !filter_cons, IH. clear IH.
  unfold groups in Hg.
  repeat (apply elem_of_cons in Hg as [->|Hg]);
    [..|by apply elem_of_nil in Hg]; simpl.
  - destruct (decide (_ <$> variable x = Some chosen)) as [Hv|Hv].
    + by rewrite decide_True.
    + rewrite decide_False; [done|]. by intros [? _].
  - rewrite decide_False; [done|]. by intros (_ & ? & _).
  - rewrite decide_False; [done|]. by intros (_ & ? & _).
  - rewrite decide_False; [done|]. by intros (_ & _ & ? & _).
  - rewrite decide_False; [done|]. by intros (_ & _ & ? & _).
  - rewrite decide_False; [done|]. by intros (_ & _ & _ & ? & _).
  - rewrite decide_False; [done|]. by intros (_ & _ & _ & ? & _).
  - rewrite decide_False; [done|]. by intros (_ & _ & _ & _ & ?).
  - rewrite decide_False; [done|]. by intros (_ & _ & _ & _ & ?).
Qed.

Lemma between_schools_school data school fs chosen :
  Forall2 (λ g frame, aggregate data school g = Some frame) groups fs →
  get_between_schools variable (concat fs) chosen
  = of_topic chosen (default [] (aggregate data school GAll)).
Proof.
  intros Hfs.
  transitivity (concat ((λ frame, get_between_schools variable frame chosen)
                          <$> fs)); [apply filter_concat|].
  assert (Hall : Forall2 (λ g frame,
            get_between_schools variable frame chosen
            = if decide (g = GAll)
              then of_topic chosen (default [] (aggregate data school GAll))
              else []) groups fs).
  { apply Forall2_same_length_lookup. split; [by eapply Forall2_length|].
    intros k g frame Hg Hframe.
    pose proof (Forall2_lookup_lr _ _ _ _ _ _ Hfs Hg Hframe) as Hagg.
    simpl in Hagg.
    rewrite (between_schools_frame data school g frame chosen);
      [|by eapply list_elem_of_lookup_2|done].
    destruct (decide (g = GAll)) as [->|]; [|done]. by rewrite Hagg. }
  unfold groups in Hall.
  repeat (apply Forall2_cons_inv_l in Hall as (? & ? & ? & Hall & ->)).
  apply Forall2_nil_inv_l in Hall as ->.
  simpl in *.
  repeat match goal with
         | H : get_between_schools _ _ _ = _ |- _ => rewrite H; clear H
         end.
  by rewrite !app_nil_r.
Qed.

(** X15.  On the table the aggregator returns, [get_between_schools]
    keeps the rows of the chosen topic of the whole-school frames and
    nothing else, school after school in ascending order of the school
    labels: no row of a year group, gender, FSM or SEN group passes the
    four "All" tests. *)
Theorem between_schools_of_results data out chosen :
  results data = Some out →
  get_between_schools variable out chosen
  = school ← schools data;
    of_topic chosen (default [] (aggregate data school GAll)).
Proof.
  intros Hout. apply results_Some in Hout as (frames & Hf & _ & ->).
  induction Hf as [|school fs ss frames Hs _ IH]; [done|].
  rewrite concat_cons, concat_app, bind_cons, <- IH.
  unfold get_between_schools at 1. rewrite filter_app. f_equal.
  by apply between_schools_school.
Qed.
End between_schools_lemmas.


(** * [reverse_categories] *)

Global Instance desc_nan_last_trans : Transitive desc_nan_last.
Proof.
  intros [|a] [|b] [|c]; simpl; try done.
  intros H1 H2. by etrans.
Qed.

Global Instance desc_nan_last_total : Total desc_nan_last.
Proof.
  intros [|a] [|b]; simpl; auto.
  destruct (Qclt_le_dec a b); [right; by apply Qclt_le_weak|by left].
Qed.

Global Instance cell_max_comm : Comm (=) cell_max.
Proof.
  intros [|a] [|b]; simpl; try done.
  repeat case_decide; try done.
  - f_equal. by apply Qcle_antisym.
  - exfalso. destruct (Qclt_le_dec a b) as [?%Qclt_le_weak|?]; done.
Qed.

Global Instance cell_max_assoc : Assoc (=) cell_max.
Proof.
  intros [|a] [|b] [|c]; simpl; try done;
    repeat (case_decide; simpl); try done.
  all: repeat match goal with
              | H : ¬ (_ ≤ _) |- _ => apply Qcnot_le_lt, Qclt_le_weak in H
              end.
  all: try (f_equal; apply Qcle_antisym; by eauto using Qcle_trans).
  all: exfalso; eauto using Qcle_trans.
Qed.

Global Instance desc_nan_last_antisym : AntiSymm (=) desc_nan_last.
Proof.
  intros [|a] [|b]; simpl; try done.
  intros H1 H2. f_equal. by apply Qcle_antisym.
Qed.

Lemma filter_split_perm {A} (P : A → Prop) `{!∀ x, Decision (P x)}
    (l : list A) :
  filter (λ x, ¬ P x) l ++ filter P l ≡ₚ l.
Proof.
  induction l as [|x l IH]; [done|].
  rewrite !filter_cons. destruct (decide (P x)) as [HP|HP].
  - rewrite decide_False by (by intros ?).
    by rewrite <- Permutation_middle, IH.
  - rewrite decide_True by done. simpl. by rewrite IH.
Qed.

Section reverse_categories_lemmas.
Context {A : Type} (cat : A → cell) (sort_values : list A → list A).
Implicit Types (df : list A) (r : A).

Local Abbreviation before := (λ r r', desc_nan_last (cat r) (cat r')).

Lemma cell_max_Num_l (a : Qc) y : ∃ m, cell_max (Num a) y = Num m ∧ a ≤ m.
Proof.
  destruct y as [|b]; simpl; [by exists a|].
  case_decide; [by exists b|by exists a].
Qed.

Lemma cell_max_Num_r x (b : Qc) : ∃ m, cell_max x (Num b) = Num m ∧ b ≤ m.
Proof.
  destruct x as [|a]; simpl; [by exists b|].
  case_decide as H; [by exists b|exists a]. split; [done|].
  by apply Qclt_le_weak, Qcnot_le_lt.
Qed.

(** The maximum is above every category of the frame. *)
Lemma cat_max_upper df r (a : Qc) :
  r ∈ df → cat r = Num a → ∃ m, cat_max cat df = Num m ∧ a ≤ m.
Proof.
  unfold cat_max. induction df as [|r' df IH]; [by intros ?%elem_of_nil|].
  intros [->|Hin]%elem_of_cons Ha;
    change (foldr cell_max NaN (cat <$> ?x :: df))
      with (cell_max (cat x) (foldr cell_max NaN (cat <$> df))).
  - rewrite Ha. apply cell_max_Num_l.
  - destruct (IH Hin Ha) as (m & -> & Hm).
    destruct (cell_max_Num_r (cat r') m) as (m' & -> & Hm').
    exists m'. split; [done|]. by etrans.
Qed.

Lemma reverse_categories_split df :
  sorts_descending cat sort_values →
  reverse_categories cat sort_values df ≡ₚ df ∧
  ∃ front,
    reverse_categories cat sort_values df
    = front ++ filter (λ r, py_eq (cat r) (cat_max cat df)) df ∧
    StronglySorted before front ∧
    ∀ r (a : Qc), r ∈ front → cat r = Num a →
      ∃ m, cat_max cat df = Num m ∧ a < m.
Proof.
  intros Hsort. unfold reverse_categories.
  set (m := cat_max cat df).
  destruct (Hsort (filter (λ r, py_ne (cat r) m) df)) as [Hperm Hsorted].
  split.
  - rewrite Hperm. apply (filter_split_perm (λ r, py_eq (cat r) m)).
  - eexists. split; [done|]. split.
    + apply Sorted_StronglySorted; [|done].
      intros x y z. apply desc_nan_last_trans.
    + intros r a Hr Ha. rewrite Hperm in Hr.
      apply list_elem_of_filter in Hr as [Hne Hin].
      destruct (cat_max_upper df r a Hin Ha) as (m' & Hm' & Hle).
      exists m'. split; [done|].
      apply Qcnot_le_lt. intros Hge.
      apply Hne. split; [|by rewrite Ha].
      fold m in Hm'. rewrite Ha, Hm'. f_equal. by apply Qcle_antisym.
Qed.

(** X16.  [reverse_categories] loses and repeats no row.  The rows of
    the largest category come last, in the order they had; before them
    the rows are in descending order of category, and every category
    there is strictly below the largest.  So the function does not turn
    the frame round: it sorts it. *)
Theorem reverse_categories_shape df :
  sorts_descending cat sort_values →
  reverse_categories cat sort_values df ≡ₚ df ∧
  ∃ front,
    reverse_categories cat sort_values df
    = front ++ filter (λ r, py_eq (cat r) (cat_max cat df)) df ∧
    StronglySorted before front ∧
    ∀ r (a : Qc), r ∈ front → cat r = Num a →
      ∃ m, cat_max cat df = Num m ∧ a < m.
Proof. apply reverse_categories_split. Qed.

Lemma cat_max_permutation df df' :
  df ≡ₚ df' → cat_max cat df = cat_max cat df'.
Proof.
  intros Hperm. unfold cat_max.
  apply (foldr_permutation_proper' (=) cell_max NaN).
  by apply fmap_Permutation.
Qed.

Lemma filter_all (P : A → Prop) `{!∀ x, Decision (P x)} df :
  Forall P df → filter P df = df.
Proof.
  induction 1 as [|r df Hr _ IH]; [done|].
  by rewrite filter_cons, decide_True, IH.
Qed.

Lemma filter_none (P : A → Prop) `{!∀ x, Decision (P x)} df :
  Forall (λ r, ¬ P r) df → filter P df = [].
Proof.
  induction 1 as [|r df Hr _ IH]; [done|].
  by rewrite filter_cons, decide_False, IH.
Qed.

(** X17.  Applied to its own result, [reverse_categories] leaves the
    categories where they are: it does not put back the order the frame
    had before. *)
Theorem reverse_categories_twice df :
  sorts_descending cat sort_values →
  cat <$> reverse_categories cat sort_values
            (reverse_categories cat sort_values df)
  = cat <$> reverse_categories cat sort_values df.
Proof.
  intros Hsort.
  destruct (reverse_categories_split df Hsort) as (Hperm & front & Hout & _).
  assert (Hfront : front ≡ₚ filter (λ r, py_ne (cat r) (cat_max cat df)) df).
  { unfold reverse_categories in Hout. apply app_inv_tail in Hout as <-.
    apply Hsort. }
  unfold reverse_categories at 1.
  rewrite (cat_max_permutation _ _ Hperm), Hout, !filter_app.
  set (m := cat_max cat df) in *.
  rewrite (filter_all (λ r, py_ne (cat r) m) front),
    (filter_none (λ r, py_ne (cat r) m)),
    (filter_none (λ r, py_eq (cat r) m) front),
    (filter_all (λ r, py_eq (cat r) m)), app_nil_r, app_nil_l.
  - rewrite !fmap_app. f_equal.
    destruct (Hsort front) as [Hp Hs].
    apply (StronglySorted_unique desc_nan_last).
    + apply Sorted_StronglySorted; [apply _|].
      by apply (Sorted_fmap _ before).
    + apply Sorted_StronglySorted; [apply _|].
      apply (Sorted_fmap _ before); [done|].
      rewrite Hout in Hperm. unfold reverse_categories in Hout.
      apply app_inv_tail in Hout as <-. apply Hsort.
    + by rewrite Hp.
  - apply Forall_forall. by intros r [? _]%list_elem_of_filter.
  - apply Forall_forall. intros r Hr. rewrite Hfront in Hr.
    by apply list_elem_of_filter in Hr as [? _].
  - apply Forall_forall. intros r [He _]%list_elem_of_filter Hne.
    by apply Hne.
  - apply Forall_forall. intros r Hr. rewrite Hfront in Hr.
    by apply list_elem_of_filter in Hr as [? _].
Qed.
End reverse_categories_lemmas.

(** * The bar charts of the report: [survey_responses] *)

Lemma elem_of_np_unique x l : x ∈ np_unique l ↔ x ∈ l.
Proof.
  unfold np_unique, sort_values.
  by rewrite merge_sort_Permutation, elem_of_drop_duplicates.
Qed.

Lemma np_unique_nil l : np_unique l = [] ↔ l = [].
Proof.
  split.
  - intros H. destruct l as [|x l]; [done|].
    assert (x ∈ np_unique (x :: l)) as Hx
      by (apply elem_of_np_unique; left).
    rewrite H in Hx. by apply elem_of_nil in Hx.
  - intros ->. reflexivity.
Qed.

Lemma np_unique_head l : l ≠ [] → is_Some (np_unique l !! 0%nat).
Proof.
  intros Hl. destruct (np_unique l) eqn:E; [|by eexists].
  apply (proj1 (np_unique_nil _)) in E. done.
Qed.

Section survey_responses_props.
Context {P : Type}.
Context (render : list (Response P) → list (string * string) → Z → string).

Lemma colour_map_Some (ug : list string) :
  ug ≠ [] →
  is_Some (if decide (length ug = 1%nat)
           then g0 ← ug !! 0%nat; Some [(g0, "#FF6E4A")]
           else g0 ← ug !! 0%nat; g1 ← ug !! 1%nat;
                Some [(g0, "#ffb49a"); (g1, "#e05a38")]).
Proof.
  intros Hug. destruct ug as [|g0 [|g1 ug]]; [done| |]; simpl.
  - by eexists.
  - by eexists.
Qed.

Lemma plot_measure_None font_size (dataset : list (Response P)) measure :
  measure ∈ measure_lab <$> dataset →
  plot_measure render font_size dataset measure = None
  ↔ only_under_10 dataset measure.
Proof.
  intros Hin. unfold plot_measure, only_under_10. cbv zeta.
  set (df := filter (λ r, measure_lab r = measure) dataset).
  set (mask := λ r : Response P, cat_lab r = "Less than 10 responses").
  assert (df ≠ []) as Hdf.
  { apply list_elem_of_fmap in Hin as (r & -> & Hr).
    intros E. assert (r ∈ df) as Hr' by by apply list_elem_of_filter.
    rewrite E in Hr'. by apply elem_of_nil in Hr'. }
  destruct (decide (length (filter mask df) = 1%nat)) as [Hone|Hone].
  - match goal with
    | |- context [np_unique (pupil_group <$> ?x) !! 0%nat ≫= (λ kept, _)] =>
        change x with (filter (λ r, ¬ mask r) df)
    end.
    destruct (filter (λ r, ¬ mask r) df) as [|r' df'] eqn:Hkept;
      (destruct (np_unique_head (pupil_group <$> filter mask df))
         as [dropped ->];
       [intros E; apply fmap_nil_inv in E; rewrite E in Hone;
        simpl in Hone; lia|]).
    + simpl. split; [intros _|done].
      assert (filter mask df = df) as Hall.
      { clear -Hkept. induction df as [|r df IH]; [done|].
        rewrite filter_cons in Hkept. rewrite filter_cons.
        destruct (decide (mask r)); destruct (decide (¬ mask r)); try done.
        f_equal. by apply IH. }
      rewrite Hall in Hone.
      destruct df as [|r [|??]]; simplify_eq/=. exists r. split; [done|].
      assert (r ∈ filter mask [r]) as Hr by (rewrite Hall; left).
      by apply list_elem_of_filter in Hr as [Hr _].
    + destruct (np_unique_head (pupil_group <$> r' :: df')) as [kept ->];
        [done|]. simpl.
      match goal with
      | |- context [decide (length ?ug = 1%nat)] =>
          destruct (colour_map_Some ug) as [cm ->]
      end.
      { intros E. by apply (proj1 (np_unique_nil _)) in E. }
      simpl. split; [done|]. intros (r & Hr & _).
      rewrite Hr in Hkept. rewrite Hr in Hone.
      rewrite filter_cons, filter_nil in Hkept, Hone.
      destruct (decide (mask r)); destruct (decide (¬ mask r)); done.
  - simpl.
    match goal with
    | |- context [decide (length ?ug = 1%nat)] =>
        destruct (colour_map_Some ug) as [cm ->]
    end.
    { intros E. apply (proj1 (np_unique_nil _)), fmap_nil_inv in E. done. }
    simpl. split; [done|]. intros (r & Hr & Hmask).
    rewrite Hr in Hone. rewrite filter_cons, filter_nil in Hone.
    destruct (decide (mask r)); done.
Qed.

(** X18. Making the charts of the report raises (an [IndexError])
    exactly when some question of the frame has a single row and that
    row says that fewer than ten pupils answered: the row is dropped
    and no group is left to name. *)
Theorem survey_responses_raises_iff (dataset : list (Response P))
    font_size content :
  survey_responses render dataset font_size content = None
  ↔ ∃ measure, only_under_10 dataset measure.
Proof.
  unfold survey_responses. split.
  - intros H.
    destruct (mapM _ _) as [blocks|] eqn:E; [done|]. clear H.
    apply mapM_None, Exists_exists in E as (measure & Hin & Hnone).
    exists measure. apply plot_measure_None in Hnone; [done|].
    by apply elem_of_drop_duplicates.
  - intros (measure & Hm).
    assert (measure ∈ measure_lab <$> dataset) as Hin.
    { destruct Hm as (r & Hr & _).
      assert (r ∈ filter (λ r, measure_lab r = measure) dataset) as Hr'
        by (rewrite Hr; left).
      apply list_elem_of_filter in Hr' as [<- Hr'].
      by apply list_elem_of_fmap_2. }
    rewrite (mapM_None_2 (plot_measure render font_size dataset)); [done|].
    apply Exists_exists. exists measure. split.
    + by apply elem_of_drop_duplicates.
    + by apply plot_measure_None.
Qed.
End survey_responses_props.

(** * The further properties at the example frames *)

Lemma reverse_score_within_bounds_witness :
  ∃ y, reverse_score [# of_int 2; of_int 5] 1 5 !!! 0%fin = Num y ∧
       Qc_of_Z 1 ≤ y ≤ Qc_of_Z 5 ∧
       (Qc_of_Z 2 = Qc_of_Z 1 → y = Qc_of_Z 5) ∧
       (Qc_of_Z 2 = Qc_of_Z 5 → y = Qc_of_Z 1).
Proof.
  apply (reverse_score_within_bounds [# of_int 2; of_int 5] 1 5 0%fin
           (Qc_of_Z 2)).
  - reflexivity.
  - split; by vm_compute.
Defined.

Lemma reverse_score_antitone_witness :
  ∃ y y', reverse_score [# of_int 2; of_int 5] 1 5 !!! 0%fin = Num y ∧
          reverse_score [# of_int 2; of_int 5] 1 5 !!! 1%fin = Num y' ∧
          y' ≤ y.
Proof.
  apply (reverse_score_antitone [# of_int 2; of_int 5] 1 5 0%fin 1%fin
           (Qc_of_Z 2) (Qc_of_Z 5)).
  - reflexivity.
  - reflexivity.
  - by vm_compute.
Defined.

Lemma talk_score_range_witness :
  ∃ d', calculate_scores (complete_frame [# of_int 3]) = Some d' ∧
    (∀ prefix, prefix ∈ ["staff"; "home"; "peer"] →
       ∃ z, value_at d' (prefix +:+ "_talk_score") 0%fin (Num z)
            ∧ Qc_of_Z 1 ≤ z ≤ Qc_of_Z 4) ∧
    ∃ y, value_at d' "talk_score" 0%fin (Num y)
         ∧ Qc_of_Z 3 ≤ y ≤ Qc_of_Z 12.
Proof.
  apply (talk_score_range (complete_frame [# of_int 3]) 0%fin).
  - apply (bool_decide_unpack _). by vm_compute.
  - intros prefix Hin.
    exists (Qc_of_Z 3), (Qc_of_Z 3), (Qc_of_Z 3), 3%Z.
    assert (prefix = "staff" ∨ prefix = "home" ∨ prefix = "peer")
      as [->|[->| ->]]
      by (revert Hin; rewrite !elem_of_cons, elem_of_nil; tauto).
    all: repeat split;
      try (exists [# of_int 3]; split; vm_compute; reflexivity);
      try (by vm_compute);
      apply (bool_decide_unpack _); by vm_compute.
Defined.

Lemma scores_row_local_witness :
  ∃ d1' d2',
    calculate_scores two_pupils = Some d1' ∧
    calculate_scores (<["autonomy_told" := [# of_int 2]]>
                        (complete_frame [# of_int 3])) = Some d2' ∧
    ∀ c, c ∈ score_columns → cell_at d1' c 1%fin = cell_at d2' c 0%fin.
Proof.
  apply (scores_row_local two_pupils
           (<["autonomy_told" := [# of_int 2]]> (complete_frame [# of_int 3]))
           1%fin 0%fin).
  - apply (bool_decide_unpack _). by vm_compute.
  - apply (bool_decide_unpack _). by vm_compute.
  - apply Forall_forall. apply (bool_decide_unpack _). by vm_compute.
Defined.

Lemma whole_school_aggregated_witness :
  to_agg four_pupils "School A" GAll ≠ [] ∧
  aggregate_group mean_score no_scores four_pupils "School A" GAll
  = (λ res : list summary, set_labels "School A" GAll <$> res)
      <$> mean_score (to_agg four_pupils "School A" GAll).
Proof.
  apply (whole_school_aggregated mean_score no_scores four_pupils "School A").
  apply (bool_decide_unpack _). by vm_compute.
Defined.

Lemma group_sizes_add_up_witness :
  (length (to_agg four_pupils "School A" (GFilter "Girl" gender_lab))
   + length (to_agg four_pupils "School A" (GFilter "Boy" gender_lab))
   + length (filter (λ p, ¬ label gender_lab p = Some "Girl"
                          ∧ ¬ label gender_lab p = Some "Boy")
                    (to_agg four_pupils "School A" GAll))
   = length (to_agg four_pupils "School A" GAll))%nat.
Proof.
  apply (group_sizes_add_up four_pupils "School A" gender_lab "Girl" "Boy").
  discriminate.
Defined.

Lemma results_permutation_witness :
  results_by_school_and_group count_pupils [0%nat] four_pupils
  = results_by_school_and_group count_pupils [0%nat] (reverse four_pupils).
Proof.
  apply (results_permutation count_pupils [0%nat] four_pupils
           (reverse four_pupils)).
  - symmetry. apply reverse_Permutation.
  - intros rows rows' Hperm. unfold count_pupils. by rewrite Hperm.
Defined.

Lemma between_schools_of_results_witness :
  get_between_schools (λ _ : summary, Some "autonomy_score")
    four_pupils_result "autonomy"
  = school ← schools four_pupils;
    filter (λ r : Result summary,
              str_replace "_score" "" <$> Some "autonomy_score"
              = Some "autonomy")
           (default [] (aggregate_group mean_score no_scores four_pupils
                          school GAll)).
Proof.
  apply (between_schools_of_results mean_score no_scores
           (λ _ : summary, Some "autonomy_score") four_pupils
           four_pupils_result "autonomy").
  vm_compute. reflexivity.
Defined.

(** The merge sort on the category is a sort as [reverse_categories]
    asks for. *)
Lemma sort_by_cat_sorts : sorts_descending fst sort_by_cat.
Proof.
  intros l. unfold sort_by_cat. split.
  - apply merge_sort_Permutation.
  - apply (@Sorted_merge_sort _ _ _ (λ r r', total desc_nan_last r.1 r'.1)).
Qed.

Lemma reverse_categories_shape_witness :
  reverse_categories fst sort_by_cat how_often ≡ₚ how_often ∧
  ∃ front,
    reverse_categories fst sort_by_cat how_often
    = front ++ filter (λ r, py_eq r.1 (cat_max fst how_often)) how_often ∧
    StronglySorted (λ r r', desc_nan_last r.1 r'.1) front ∧
    ∀ r (a : Qc), r ∈ front → r.1 = Num a →
      ∃ m, cat_max fst how_often = Num m ∧ a < m.
Proof.
  apply (reverse_categories_shape fst sort_by_cat how_often).
  apply sort_by_cat_sorts.
Defined.

Lemma reverse_categories_twice_witness :
  fst <$> reverse_categories fst sort_by_cat
            (reverse_categories fst sort_by_cat how_often)
  = fst <$> reverse_categories fst sort_by_cat how_often.
Proof.
  apply (reverse_categories_twice fst sort_by_cat how_often).
  apply sort_by_cat_sorts.
Defined.

(** The answers of [how_often] in the order of the chart: the last
    category, "No response", stays last and the others are turned
    round. *)
Example reverse_categories_how_often :
  snd <$> reverse_categories fst sort_by_cat how_often
  = ["Often"; "Sometimes"; "Never"; "No response"].
Proof. vm_compute. reflexivity. Qed.

Example str_replace_score :
  str_replace "_score" "" "autonomy_score" = "autonomy"
  ∧ str_replace "_score" "" "life_satisfaction_score" = "life_satisfaction"
  ∧ str_replace "ab" "c" "abab-aab" = "cc-ac"
  ∧ str_replace "" "-" "ab" = "-a-b-".
Proof. vm_compute. done. Qed.

(** A frame of responses with a question only fewer than ten pupils
    answered: the charts cannot be made. *)
Example survey_responses_under_10 :
  survey_responses (λ _ _ _, "")
    [ mkResponse "I feel safe" "Less than 10 responses" "All" tt ] 16 []
  = None.
Proof. vm_compute. reflexivity. Qed.

Lemma calculate_scores_idempotent_witness :
  ∃ d', calculate_scores two_pupils = Some d' ∧ calculate_scores d' = Some d'.
Proof.
  apply (calculate_scores_idempotent two_pupils).
  apply (bool_decide_unpack _). by vm_compute.
Defined.

Lemma score_within_scale_witness :
  ∃ d' y, calculate_scores (complete_frame [# of_int 3]) = Some d' ∧
          value_at d' "bully_score" 0%fin (Num y) ∧
          Qc_of_Z 3 ≤ y ≤ Qc_of_Z 12.
Proof.
  apply (score_within_scale (complete_frame [# of_int 3]) "bully_score"
           ["bully_physical"; "bully_other"; "bully_cyber"] 4 3 12 0%fin).
  - apply (bool_decide_unpack _). by vm_compute.
  - apply (bool_decide_unpack _). by vm_compute.
  - intros item Hin. exists (Qc_of_Z 3).
    assert (item = "bully_physical" ∨ item = "bully_other"
            ∨ item = "bully_cyber") as [->|[->| ->]]
      by (revert Hin; rewrite !elem_of_cons, elem_of_nil; tauto).
    all: split; [exists [# of_int 3]; split; vm_compute; reflexivity|].
    all: split; by vm_compute.
Defined.
